(** * The idempotent wallet: transfers between wallets with an idempotency ledger

    A shallow embedding of [task-a-wallet]: the three Sequelize models
    ([Wallet], [Transaction], [TransactionLog]), the [IdempotencyService],
    the [WalletService] and the transfer endpoint of the controller,
    followed by the properties of [processTransfer] and of the services
    around it.

    Conventions of the embedding.
    - A [DECIMAL(15,2)] column is counted in hundredths, as an integer of
      [Z] below 10^15 in absolute value.  A [number] that a caller passes
      (an amount, an initial balance) is a [JsNumber]: any finite decimal,
      with as many decimals as the caller gives it.  The database rounds
      to two decimals when it stores.
    - A table is the list of its rows, in insertion order; the table
      [transaction_logs], which the services address only through its unique
      column [idempotencyKey], is a finite map on that column.  The surrogate
      key of a log row is never read and is left out.
    - An [async] function is a computation over the database that also
      records the statements it sends ([Event]); it resolves or rejects.
    - What a call draws from outside (the two UUIDs and the clock) is its
      [Env]; what the engine does with the transaction of a concurrent
      call is its [Engine].
    - Left out: the [updatedAt] columns, the other endpoints of the
      controller, the numbers [NaN] and [±Infinity], and the interest
      module. *)

From Stdlib Require Import ZArith Lia Ascii String.
From stdpp Require Import base option list strings gmap sorting.

Local Open Scope string_scope.
Local Open Scope Z_scope.
Local Open Scope list_scope.

(** ** Numbers *)

(** A finite JavaScript [number], by the decimal expansion that
    [Number.prototype.toString] gives it, which is the text Sequelize writes
    into a statement and the value PostgreSQL computes with:
    [num_units × 10^(-num_scale)].  So 100.005 is [mkNumber 100005 3] and
    200 is [mkNumber 200 0].  The functions below depend on the value only,
    not on the trailing zeros of its writing; on the numbers the program
    compares ([0], [0.01], a balance read back from its column, an amount)
    the comparisons of these decimals are the comparisons of the doubles. *)
Record JsNumber := mkNumber {
  num_units : Z;
  num_scale : nat;
}.

#[global] Instance JsNumber_eq_dec : EqDecision JsNumber.
Proof. solve_decision. Defined.

Definition whole (n : Z) : JsNumber := mkNumber n 0.

Definition pow10 (n : nat) : Z := 10 ^ Z.of_nat n.

(** [x <= 0] *)
Definition le_zero (x : JsNumber) : bool := num_units x <=? 0.

(** [!x], for a number: [x] is zero *)
Definition is_zero (x : JsNumber) : bool := num_units x =? 0.

(** [x < c / 100] and [b / 100 < x], for [c] and [b] in hundredths *)
Definition lt_hundredths (x : JsNumber) (c : Z) : bool :=
  100 * num_units x <? c * pow10 (num_scale x).
Definition hundredths_lt (b : Z) (x : JsNumber) : bool :=
  b * pow10 (num_scale x) <? 100 * num_units x.

(** [-x] *)
Definition num_opp (x : JsNumber) : JsNumber := mkNumber (- num_units x) (num_scale x).

(** [n / d] rounded to the nearest integer, a half going away from zero: the
    rounding of PostgreSQL's [numeric] when a value is stored in a column of
    a smaller scale. *)
Definition round_half_away (n d : Z) : Z :=
  if 0 <=? n then (2 * n + d) / (2 * d) else - ((2 * - n + d) / (2 * d)).

(** What a [DECIMAL(15,2)] column holds after it is assigned [b / 100 + x],
    in hundredths. *)
Definition add_rounded (b : Z) (x : JsNumber) : Z :=
  round_half_away (b * pow10 (num_scale x) + 100 * num_units x) (pow10 (num_scale x)).

Definition rounded (x : JsNumber) : Z := add_rounded 0 x.

(** [DECIMAL(15,2)] has 13 digits before the point: a value that rounds to
    10^13 or more is refused ("numeric field overflow"). *)
Definition fits (c : Z) : bool := Z.abs c <? 10 ^ 15.

(** ** Models *)

(** [wallet.model.ts] *)
Record Wallet := mkWallet {
  wallet_id : string;
  wallet_userId : string;
  wallet_balance : Z;
}.

(** [transaction.model.ts] *)
Module TransactionType.
Inductive t := TRANSFER | DEPOSIT | WITHDRAWAL.
End TransactionType.

Module TransactionStatus.
Inductive t := PENDING | COMPLETED | FAILED.

#[global] Instance status_eq_dec : EqDecision t.
Proof. solve_decision. Defined.

Definition to_string (s : t) : string :=
  match s with
  | PENDING => "PENDING"
  | COMPLETED => "COMPLETED"
  | FAILED => "FAILED"
  end.
End TransactionStatus.

Record Transaction := mkTransaction {
  txn_id : string;
  txn_fromWalletId : option string;
  txn_toWalletId : option string;
  txn_amount : Z;
  txn_type : TransactionType.t;
  txn_status : TransactionStatus.t;
  txn_reference : string;
  txn_description : option string;
  txn_createdAt : Z;
}.

(** [wallet.service.ts]: the request and the response of a transfer *)
Record TransferRequest := mkTransferRequest {
  req_fromUserId : string;
  req_toUserId : string;
  req_amount : JsNumber;
  req_description : option string;
  req_idempotencyKey : string;
}.

Record TransferResponse := mkTransferResponse {
  res_transactionId : string;
  res_fromWalletId : string;
  res_toWalletId : string;
  res_amount : JsNumber;
  res_status : string;
  res_reference : string;
  res_message : string;
}.

(** [transaction-log.model.ts] *)
Module TransactionLogStatus.
Inductive t := PENDING | COMPLETED | FAILED.

#[global] Instance log_status_eq_dec : EqDecision t.
Proof. solve_decision. Defined.
End TransactionLogStatus.

Record TransactionLog := mkTransactionLog {
  log_idempotencyKey : string;
  log_status : TransactionLogStatus.t;
  log_transactionId : option string;
  log_requestPayload : TransferRequest;
  log_responsePayload : option TransferResponse;
  log_errorMessage : option string;
}.

(** ** The database *)

Record DB := mkDB {
  wallets : list Wallet;
  transactions : list Transaction;
  transaction_logs : gmap string TransactionLog;
}.

Definition with_wallets (ws : list Wallet) (db : DB) : DB :=
  mkDB ws (transactions db) (transaction_logs db).
Definition with_transactions (ts : list Transaction) (db : DB) : DB :=
  mkDB (wallets db) ts (transaction_logs db).
Definition with_logs (ls : gmap string TransactionLog) (db : DB) : DB :=
  mkDB (wallets db) (transactions db) ls.

(** What a call takes from outside the program. *)
Record Env := mkEnv {
  env_uuid : string;          (* the [uuidv4()] behind the reference *)
  env_defaultId : string;     (* the [UUIDV4] default of a created row *)
  env_now : Z;                (* the clock behind [createdAt] *)
}.

(** ** Errors *)

(** [utils/error-handler.ts] has [AppError]; the other three are the errors
    Sequelize raises: for a violated unique index, for a failed validator of
    a model, and for a statement the database refuses otherwise (a value out
    of the column's range, a deadlock, a serialization failure). *)
Inductive Error :=
| AppError (message : string) (statusCode : Z)
| SequelizeUniqueConstraintError
| SequelizeValidationError (message : string)
| SequelizeDatabaseError (message : string).

(** [error.message] *)
Definition error_message (e : Error) : string :=
  match e with
  | AppError m _ => m
  | SequelizeUniqueConstraintError => "Validation error"
  | SequelizeValidationError m => m
  | SequelizeDatabaseError m => m
  end.

(** The error of the validator [min] on a field, and of a value that does
    not fit its [DECIMAL(15,2)] column. *)
Definition validation_min (field : string) : Error :=
  SequelizeValidationError ("Validation error: Validation min on " +:+ field +:+ " failed").
Definition numeric_overflow : Error := SequelizeDatabaseError "numeric field overflow".

(** ** Statements sent to the database *)

Inductive Event :=
| SelectLog (idempotencyKey : string)
| InsertLog (idempotencyKey : string) (accepted : bool)
| UpdateLog (idempotencyKey : string) (status : TransactionLogStatus.t)
| Begin
| Commit
| Rollback
| SelectWallet (userId : string)
| SelectWalletForUpdate (userId : string) (locked : option string)
| InsertWallet (userId : string) (accepted : bool)
| InsertTransaction (id : string) (accepted : bool)
| UpdateWalletBalance (walletId : string) (delta : JsNumber) (accepted : bool)
| UpdateTransaction (id : string) (status : TransactionStatus.t)
| SelectTransactions (walletId : string).

#[global] Instance Event_eq_dec : EqDecision Event.
Proof. solve_decision. Defined.

(** ** Asynchronous computations *)

Inductive Outcome (A : Type) :=
| Resolved (a : A)
| Rejected (e : Error).
Arguments Resolved {A} a.
Arguments Rejected {A} e.

Definition M (A : Type) : Type := DB → DB * list Event * Outcome A.

Definition ret {A} (a : A) : M A := λ db, (db, [], Resolved a).
Definition throw {A} (e : Error) : M A := λ db, (db, [], Rejected e).

Definition bind {A B} (m : M A) (f : A → M B) : M B := λ db,
  match m db with
  | (db1, t1, Resolved a) =>
      match f a db1 with
      | (db2, t2, o) => (db2, t1 ++ t2, o)
      end
  | (db1, t1, Rejected e) => (db1, t1, Rejected e)
  end.

(** [try { m } catch (error) { h error }] *)
Definition try_catch {A} (m : M A) (h : Error → M A) : M A := λ db,
  match m db with
  | (db1, t1, Rejected e) =>
      match h e db1 with
      | (db2, t2, o) => (db2, t1 ++ t2, o)
      end
  | r => r
  end.

(** [sequelize.transaction(options, body)]: commits what [body] wrote when it
    resolves, and rolls all of it back when it rejects. *)
Definition transaction {A} (body : M A) : M A := λ db,
  match body db with
  | (db1, t1, Resolved a) => (db1, Begin :: t1 ++ [Commit], Resolved a)
  | (_, t1, Rejected e) => (db, Begin :: t1 ++ [Rollback], Rejected e)
  end.

Notation "'await' x ':=' m 'in' k" := (bind m (λ x, k))
  (at level 10, x name, m at level 100, k at level 200, only parsing).
Notation "'await_' m 'in' k" := (bind m (λ _, k))
  (at level 10, m at level 100, k at level 200, only parsing).

Definition db_of {A} (r : DB * list Event * Outcome A) : DB := r.1.1.
Definition trace_of {A} (r : DB * list Event * Outcome A) : list Event := r.1.2.
Definition outcome_of {A} (r : DB * list Event * Outcome A) : Outcome A := r.2.

(** ** The statements of the models *)

Definition has_userId (userId : string) (w : Wallet) : bool :=
  bool_decide (wallet_userId w = userId).
Definition has_id (id : string) (w : Wallet) : bool :=
  bool_decide (wallet_id w = id).

(** [Wallet.findOne({ where: { userId } })] *)
Definition Wallet_findOne (userId : string) : M (option Wallet) := λ db,
  (db, [SelectWallet userId], Resolved (List.find (has_userId userId) (wallets db))).

(** [Wallet.findOne({ where: { userId }, lock: t.LOCK.UPDATE, transaction: t })] *)
Definition Wallet_findOne_forUpdate (userId : string) : M (option Wallet) := λ db,
  let row := List.find (has_userId userId) (wallets db) in
  (db, [SelectWalletForUpdate userId (wallet_id <$> row)], Resolved row).

(** [Wallet.create({ userId, balance })]: [balance] is validated with
    [min: 0] before the insert is sent; the insert rounds it to the column's
    two decimals and is refused when the rounded value does not fit the
    column; [id] is the primary key and [userId] has a unique index.  The
    wallet it resolves with is the row as stored. *)
Definition Wallet_create (env : Env) (userId : string) (balance : JsNumber) : M Wallet :=
  λ db,
  if lt_hundredths balance 0 then (db, [], Rejected (validation_min "balance"))
  else if negb (fits (rounded balance))
  then (db, [InsertWallet userId false], Rejected numeric_overflow)
  else if existsb (λ w, has_id (env_defaultId env) w || has_userId userId w) (wallets db)
  then (db, [InsertWallet userId false], Rejected SequelizeUniqueConstraintError)
  else
    let w := mkWallet (env_defaultId env) userId (rounded balance) in
    (with_wallets (wallets db ++ [w]) db, [InsertWallet userId true], Resolved w).

(** [wallet.increment('balance', { by })] and [wallet.decrement]:
    [UPDATE wallets SET balance = balance + by WHERE id = wallet.id] (with
    [-] for [decrement]).  The sum is computed exactly and rounded to the
    column's two decimals; the statement is refused when the rounded value
    does not fit the column. *)
Definition add_balance (id : string) (delta : JsNumber) (w : Wallet) : Wallet :=
  if has_id id w
  then mkWallet (wallet_id w) (wallet_userId w) (add_rounded (wallet_balance w) delta)
  else w.

Definition overflows (id : string) (delta : JsNumber) (ws : list Wallet) : bool :=
  existsb (λ w, has_id id w && negb (fits (add_rounded (wallet_balance w) delta))) ws.

Definition Wallet_update_balance (id : string) (delta : JsNumber) : M unit := λ db,
  if overflows id delta (wallets db)
  then (db, [UpdateWalletBalance id delta false], Rejected numeric_overflow)
  else (with_wallets (add_balance id delta <$> wallets db) db,
        [UpdateWalletBalance id delta true], Resolved ()).

Definition Wallet_increment (w : Wallet) (by_ : JsNumber) : M unit :=
  Wallet_update_balance (wallet_id w) by_.

Definition Wallet_decrement (w : Wallet) (by_ : JsNumber) : M unit :=
  Wallet_update_balance (wallet_id w) (num_opp by_).

(** [Transaction.create(values, { transaction: t })]: [amount] is validated
    with [min: 0.01] before the insert is sent; the insert rounds it to the
    column's two decimals and is refused when the rounded value does not fit
    the column; [id] is the primary key and [reference] is unique. *)
Definition Transaction_create (env : Env) (fromWalletId toWalletId : option string)
    (amount : JsNumber) (type : TransactionType.t) (status : TransactionStatus.t)
    (reference : string) (description : option string) : M Transaction := λ db,
  if lt_hundredths amount 1 then (db, [], Rejected (validation_min "amount"))
  else if negb (fits (rounded amount))
  then (db, [InsertTransaction (env_defaultId env) false], Rejected numeric_overflow)
  else if existsb (λ t, bool_decide (txn_id t = env_defaultId env)
                        || bool_decide (txn_reference t = reference)) (transactions db)
  then (db, [InsertTransaction (env_defaultId env) false],
        Rejected SequelizeUniqueConstraintError)
  else
    let t := mkTransaction (env_defaultId env) fromWalletId toWalletId (rounded amount)
               type status reference description (env_now env) in
    (with_transactions (transactions db ++ [t]) db,
     [InsertTransaction (env_defaultId env) true], Resolved t).
(** [transaction.update({ status }, { transaction: t })] *)
Definition set_status (id : string) (status : TransactionStatus.t) (t : Transaction)
    : Transaction :=
  if bool_decide (txn_id t = id)
  then mkTransaction (txn_id t) (txn_fromWalletId t) (txn_toWalletId t) (txn_amount t)
         (txn_type t) status (txn_reference t) (txn_description t) (txn_createdAt t)
  else t.

Definition Transaction_update (t : Transaction) (status : TransactionStatus.t) : M unit :=
  λ db,
  (with_transactions (set_status (txn_id t) status <$> transactions db) db,
   [UpdateTransaction (txn_id t) status], Resolved ()).

(** [TransactionLog.findOne({ where: { idempotencyKey } })] *)
Definition TransactionLog_findOne (idempotencyKey : string) : M (option TransactionLog) :=
  λ db, (db, [SelectLog idempotencyKey], Resolved (transaction_logs db !! idempotencyKey)).

(** [TransactionLog.create({ idempotencyKey, status, requestPayload })]:
    [idempotencyKey] has a unique index. *)
Definition TransactionLog_create (idempotencyKey : string)
    (status : TransactionLogStatus.t) (requestPayload : TransferRequest)
    : M TransactionLog := λ db,
  match transaction_logs db !! idempotencyKey with
  | Some _ =>
      (db, [InsertLog idempotencyKey false], Rejected SequelizeUniqueConstraintError)
  | None =>
      let l := mkTransactionLog idempotencyKey status None requestPayload None None in
      (with_logs (<[idempotencyKey := l]> (transaction_logs db)) db,
       [InsertLog idempotencyKey true], Resolved l)
  end.

(** [TransactionLog.update({ status, ...values }, { where: { idempotencyKey } })]:
    every row with that key gets the new status and the other [values]; the
    statement has no condition on the row's current status. *)
Definition set_log_status (status : TransactionLogStatus.t) (l : TransactionLog)
    : TransactionLog :=
  mkTransactionLog (log_idempotencyKey l) status (log_transactionId l)
    (log_requestPayload l) (log_responsePayload l) (log_errorMessage l).

Definition TransactionLog_update (status : TransactionLogStatus.t)
    (values : TransactionLog → TransactionLog) (idempotencyKey : string) : M unit := λ db,
  (with_logs (alter (λ l, set_log_status status (values l)) idempotencyKey
                (transaction_logs db)) db,
   [UpdateLog idempotencyKey status], Resolved ()).

(** [Transaction.findAll({ where: { [Op.or]: [{ fromWalletId }, { toWalletId }] },
    order: [['createdAt', 'DESC']], limit })] *)
Definition touches (walletId : string) (t : Transaction) : bool :=
  bool_decide (txn_fromWalletId t = Some walletId)
  || bool_decide (txn_toWalletId t = Some walletId).

Definition newer_or_same (a b : Transaction) : Prop :=
  txn_createdAt b ≤ txn_createdAt a.

#[global] Instance newer_or_same_dec : RelDecision newer_or_same.
Proof. intros a b. unfold newer_or_same. apply _. Defined.

Definition Transaction_findAll_of_wallet (walletId : string) (limit : nat)
    : M (list Transaction) := λ db,
  (db, [SelectTransactions walletId],
   Resolved (take limit (merge_sort newer_or_same
                           (filter (λ t, touches walletId t = true) (transactions db))))).

(** ** [idempotency.service.ts] *)

Module IdempotencyService.

Definition checkIdempotencyKey (idempotencyKey : string)
    : M (option TransactionLog) :=
  TransactionLog_findOne idempotencyKey.

Definition createPendingLog (idempotencyKey : string)
    (requestPayload : TransferRequest) : M TransactionLog :=
  try_catch
    (TransactionLog_create idempotencyKey TransactionLogStatus.PENDING requestPayload)
    (λ error,
       match error with
       | SequelizeUniqueConstraintError =>
           throw (AppError "Request is already being processed. Please wait." 409)
       | _ => throw error
       end).

Definition markAsCompleted (idempotencyKey transactionId : string)
    (responsePayload : TransferResponse) : M unit :=
  TransactionLog_update TransactionLogStatus.COMPLETED
    (λ l, mkTransactionLog (log_idempotencyKey l) (log_status l) (Some transactionId)
            (log_requestPayload l) (Some responsePayload) (log_errorMessage l))
    idempotencyKey.

Definition markAsFailed (idempotencyKey errorMessage : string) : M unit :=
  TransactionLog_update TransactionLogStatus.FAILED
    (λ l, mkTransactionLog (log_idempotencyKey l) (log_status l) (log_transactionId l)
            (log_requestPayload l) (log_responsePayload l) (Some errorMessage))
    idempotencyKey.

End IdempotencyService.

(** ** [wallet.service.ts] *)

(** [s.toUpperCase()] on the characters a UUID is made of *)
Definition upper (c : ascii) : ascii :=
  let n := nat_of_ascii c in
  if ((97 <=? n) && (n <=? 122))%nat then ascii_of_nat (n - 32) else c.

Fixpoint toUpperCase (s : string) : string :=
  match s with
  | EmptyString => EmptyString
  | String c s' => String (upper c) (toUpperCase s')
  end.

Module WalletService.

(** [`TXN-${uuidv4().substring(0, 8).toUpperCase()}`] *)
Definition make_reference (env : Env) : string :=
  "TXN-" +:+ toUpperCase (substring 0 8 (env_uuid env)).

(** [description || `Transfer from ${fromUserId} to ${toUserId}`] *)
Definition description_or_default (request : TransferRequest) : string :=
  let default :=
    "Transfer from " +:+ req_fromUserId request +:+ " to " +:+ req_toUserId request in
  match req_description request with
  | Some d => if bool_decide (d = "") then default else d
  | None => default
  end.

(** The callback given to [sequelize.transaction]: the atomic unit. *)
Definition processTransfer_unit (env : Env) (request : TransferRequest)
    : M TransferResponse :=
  let fromUserId := req_fromUserId request in
  let toUserId := req_toUserId request in
  let amount := req_amount request in
  await fromWallet := Wallet_findOne_forUpdate fromUserId in
  match fromWallet with
  | None => throw (AppError "Source wallet not found" 404)
  | Some fromWallet =>
  await toWallet := Wallet_findOne_forUpdate toUserId in
  match toWallet with
  | None => throw (AppError "Destination wallet not found" 404)
  | Some toWallet =>
  if hundredths_lt (wallet_balance fromWallet) amount
  then throw (AppError "Insufficient balance" 400)
  else
  let reference := make_reference env in
  await transaction :=
    Transaction_create env (Some (wallet_id fromWallet)) (Some (wallet_id toWallet))
      amount TransactionType.TRANSFER TransactionStatus.PENDING reference
      (Some (description_or_default request)) in
  await_ Wallet_decrement fromWallet amount in
  await_ Wallet_increment toWallet amount in
  await_ Transaction_update transaction TransactionStatus.COMPLETED in
  ret {| res_transactionId := txn_id transaction;
         res_fromWalletId := wallet_id fromWallet;
         res_toWalletId := wallet_id toWallet;
         res_amount := amount;
         res_status := TransactionStatus.to_string TransactionStatus.COMPLETED;
         res_reference := reference;
         res_message := "Transfer completed successfully" |}
  end end.

(** Steps 2 to 5 of [processTransfer]: what follows the look-up of the key
    when the look-up does not end the call. *)
Definition processTransfer_attempt (env : Env) (request : TransferRequest)
    : M (option TransferResponse) :=
  let idempotencyKey := req_idempotencyKey request in
  await_ IdempotencyService.createPendingLog idempotencyKey request in
  try_catch
    (await result := transaction (processTransfer_unit env request) in
     await_ IdempotencyService.markAsCompleted idempotencyKey
              (res_transactionId result) result in
     ret (Some result))
    (λ error,
       await_ IdempotencyService.markAsFailed idempotencyKey (error_message error) in
       throw error).

Definition processTransfer (env : Env) (request : TransferRequest)
    : M (option TransferResponse) :=
  let amount := req_amount request in
  let idempotencyKey := req_idempotencyKey request in
  if le_zero amount
  then throw (AppError "Transfer amount must be greater than 0" 400)
  else
  await existingLog := IdempotencyService.checkIdempotencyKey idempotencyKey in
  match existingLog with
  | Some existingLog =>
      match log_status existingLog with
      | TransactionLogStatus.COMPLETED => ret (log_responsePayload existingLog)
      | TransactionLogStatus.PENDING =>
          throw (AppError "This transaction is already being processed" 409)
      | TransactionLogStatus.FAILED => processTransfer_attempt env request
      end
  | None => processTransfer_attempt env request
  end.

Definition createWallet (env : Env) (userId : string) (initialBalance : JsNumber)
    : M Wallet :=
  try_catch (Wallet_create env userId initialBalance)
    (λ error,
       match error with
       | SequelizeUniqueConstraintError =>
           throw (AppError "Wallet already exists for this user" 409)
       | _ => throw error
       end).

Definition getWalletByUserId (userId : string) : M Wallet :=
  await wallet := Wallet_findOne userId in
  match wallet with
  | None => throw (AppError "Wallet not found" 404)
  | Some wallet => ret wallet
  end.

Definition getTransactionHistory (userId : string) : M (list Transaction) :=
  await wallet := getWalletByUserId userId in
  Transaction_findAll_of_wallet (wallet_id wallet) 50.

End WalletService.


(** ** What [processTransfer] writes *)

(** What a successful [createPendingLog] leaves in the ledger, and what the
    two marks turn it into. *)
Definition pending_log (request : TransferRequest) : TransactionLog :=
  mkTransactionLog (req_idempotencyKey request) TransactionLogStatus.PENDING None
    request None None.

Definition completed_log (request : TransferRequest) (result : TransferResponse)
    : TransactionLog :=
  mkTransactionLog (req_idempotencyKey request) TransactionLogStatus.COMPLETED
    (Some (res_transactionId result)) request (Some result) None.

Definition failed_log (request : TransferRequest) (error : Error) : TransactionLog :=
  mkTransactionLog (req_idempotencyKey request) TransactionLogStatus.FAILED None
    request None (Some (error_message error)).

Definition with_pending (request : TransferRequest) (db : DB) : DB :=
  with_logs (<[req_idempotencyKey request := pending_log request]> (transaction_logs db)) db.

(** The identifiers a new transfer row must not share with a stored one. *)
Definition collides (env : Env) (t : Transaction) : bool :=
  bool_decide (txn_id t = env_defaultId env)
  || bool_decide (txn_reference t = WalletService.make_reference env).

(** The row of a transfer: its amount is the request's, as the column
    stores it. *)
Definition transfer_row (env : Env) (request : TransferRequest) (fw tw : Wallet)
    (status : TransactionStatus.t) : Transaction :=
  mkTransaction (env_defaultId env) (Some (wallet_id fw)) (Some (wallet_id tw))
    (rounded (req_amount request)) TransactionType.TRANSFER status
    (WalletService.make_reference env)
    (Some (WalletService.description_or_default request)) (env_now env).

Definition transfer_response (env : Env) (request : TransferRequest) (fw tw : Wallet)
    : TransferResponse :=
  mkTransferResponse (env_defaultId env) (wallet_id fw) (wallet_id tw)
    (req_amount request) "COMPLETED" (WalletService.make_reference env)
    "Transfer completed successfully".

(** The database inside the unit: after the insert of the transfer row,
    after the debit, and after the credit and the update of the row. *)
Definition inserted (env : Env) (request : TransferRequest) (fw tw : Wallet)
    (db : DB) : DB :=
  with_transactions
    (transactions db ++ [transfer_row env request fw tw TransactionStatus.PENDING]) db.

Definition debited (env : Env) (request : TransferRequest) (fw tw : Wallet)
    (db : DB) : DB :=
  with_wallets (add_balance (wallet_id fw) (num_opp (req_amount request)) <$> wallets db)
    (inserted env request fw tw db).

Definition transferred (env : Env) (request : TransferRequest) (fw tw : Wallet)
    (db : DB) : DB :=
  mkDB (add_balance (wallet_id tw) (req_amount request)
          <$> (add_balance (wallet_id fw) (num_opp (req_amount request)) <$> wallets db))
       (set_status (env_defaultId env) TransactionStatus.COMPLETED
          <$> (transactions db
                 ++ [transfer_row env request fw tw TransactionStatus.PENDING]))
       (transaction_logs db).

Definition unit_locks (request : TransferRequest) (fw tw : Wallet) : list Event :=
  [SelectWalletForUpdate (req_fromUserId request) (Some (wallet_id fw));
   SelectWalletForUpdate (req_toUserId request) (Some (wallet_id tw))].

(** ** Rows and balances *)

Definition wallet_by_id (id : string) (db : DB) : option Wallet :=
  List.find (has_id id) (wallets db).

Definition balance_by_id (id : string) (db : DB) : option Z :=
  wallet_balance <$> wallet_by_id id db.

Definition total_balance (ws : list Wallet) : Z :=
  foldr (λ w acc, wallet_balance w + acc) 0 ws.

(** The row locks a trace takes, in the order it takes them. *)
Definition locks_of (tr : list Event) : list string :=
  omap (λ e, match e with SelectWalletForUpdate _ locked => locked | _ => None end) tr.

Definition insufficient : Error := AppError "Insufficient balance" 400.

(** ** Amounts, as the properties speak of them *)

(** [0 < x] *)
Definition is_positive (x : JsNumber) : Prop := 0 < num_units x.

#[global] Instance is_positive_dec x : Decision (is_positive x).
Proof. unfold is_positive. apply _. Defined.

(** [x] is exactly [c] hundredths: it has no third decimal. *)
Definition in_hundredths (x : JsNumber) (c : Z) : Prop :=
  100 * num_units x = c * pow10 (num_scale x).

(** [x ≤ b / 100]: the balance [b] covers [x]. *)
Definition covers (b : Z) (x : JsNumber) : Prop :=
  100 * num_units x ≤ b * pow10 (num_scale x).

#[global] Instance in_hundredths_dec x c : Decision (in_hundredths x c).
Proof. unfold in_hundredths. apply _. Defined.

#[global] Instance covers_dec b x : Decision (covers b x).
Proof. unfold covers. apply _. Defined.

(** What a debit of [x] takes from a balance that covers it, and what a
    credit of [x] adds to a balance that is not negative, in hundredths:
    [x] rounded to the hundredth, half a hundredth going down in the debit
    and up in the credit. *)
Definition debit (x : JsNumber) : Z :=
  - ((pow10 (num_scale x) - 200 * num_units x) / (2 * pow10 (num_scale x))).
Definition credit (x : JsNumber) : Z :=
  (200 * num_units x + pow10 (num_scale x)) / (2 * pow10 (num_scale x)).

(** [x] lies half a hundredth off: 100.005, 0.015, ... *)
Definition half_hundredth (x : JsNumber) : Prop :=
  ∃ k, 200 * num_units x = (2 * k + 1) * pow10 (num_scale x).

(** ** Concurrent calls *)

(** What the engine does with the transaction of a call that runs beside
    others: it lets it proceed, or it aborts it at one of its statements
    (a deadlock between row locks, a serialization failure of the
    SERIALIZABLE isolation level) with the message it gives; the statements
    before that one have been sent, all is rolled back, and Sequelize raises
    [SequelizeDatabaseError].  [statement] counts from 0; past the last
    statement of the body it is the COMMIT that fails. *)
Inductive Engine :=
| Proceeds
| Aborts (statement : nat) (message : string).

Definition aborted {A} (statement : nat) (message : string) (body : M A) : M A := λ db,
  match body db with
  | (_, t1, Resolved _) =>
      (db, Begin :: take statement t1 ++ [Rollback],
       Rejected (SequelizeDatabaseError message))
  | (_, t1, Rejected e) =>
      if (statement <? length t1)%nat
      then (db, Begin :: take statement t1 ++ [Rollback],
            Rejected (SequelizeDatabaseError message))
      else (db, Begin :: t1 ++ [Rollback], Rejected e)
  end.

Definition transaction_under {A} (engine : Engine) (body : M A) : M A :=
  match engine with
  | Proceeds => transaction body
  | Aborts statement message => aborted statement message body
  end.

(** A call in progress: where it stands between two awaits, and the
    statements it has sent so far.  Each [await] of [processTransfer] is one
    step.  The transaction is SERIALIZABLE, so the statements of one that
    commits take effect as one step. *)
Inductive Stage :=
| Validating
| Checking
| Creating
| Transacting
| Completing (result : TransferResponse)
| Failing (error : Error)
| Settled (outcome : Outcome (option TransferResponse)).

Record Call := mkCall {
  call_env : Env;
  call_request : TransferRequest;
  call_engine : Engine;
  call_stage : Stage;
  call_trace : list Event;
}.

Definition start_under (engine : Engine) (env : Env) (request : TransferRequest) : Call :=
  mkCall env request engine Validating [].

Definition start (env : Env) (request : TransferRequest) : Call :=
  start_under Proceeds env request.

Definition advance (c : Call) (stage : Stage) (t : list Event) : Call :=
  mkCall (call_env c) (call_request c) (call_engine c) stage (call_trace c ++ t).

Definition key_of (c : Call) : string := req_idempotencyKey (call_request c).

Definition invalid_amount : Error := AppError "Transfer amount must be greater than 0" 400.
Definition conflict_pending : Error :=
  AppError "This transaction is already being processed" 409.
Definition conflict_insert : Error :=
  AppError "Request is already being processed. Please wait." 409.

Definition call_step (c : Call) (db : DB) : DB * Call :=
  let request := call_request c in
  let idempotencyKey := req_idempotencyKey request in
  match call_stage c with
  | Validating =>
      if le_zero (req_amount request)
      then (db, advance c (Settled (Rejected invalid_amount)) [])
      else (db, advance c Checking [])
  | Checking =>
      match IdempotencyService.checkIdempotencyKey idempotencyKey db with
      | (db1, t, Resolved (Some existingLog)) =>
          match log_status existingLog with
          | TransactionLogStatus.COMPLETED =>
              (db1, advance c (Settled (Resolved (log_responsePayload existingLog))) t)
          | TransactionLogStatus.PENDING =>
              (db1, advance c (Settled (Rejected conflict_pending)) t)
          | TransactionLogStatus.FAILED => (db1, advance c Creating t)
          end
      | (db1, t, Resolved None) => (db1, advance c Creating t)
      | (db1, t, Rejected e) => (db1, advance c (Settled (Rejected e)) t)
      end
  | Creating =>
      match IdempotencyService.createPendingLog idempotencyKey request db with
      | (db1, t, Resolved _) => (db1, advance c Transacting t)
      | (db1, t, Rejected e) => (db1, advance c (Settled (Rejected e)) t)
      end
  | Transacting =>
      match transaction_under (call_engine c)
              (WalletService.processTransfer_unit (call_env c) request) db with
      | (db1, t, Resolved result) => (db1, advance c (Completing result) t)
      | (db1, t, Rejected e) => (db1, advance c (Failing e) t)
      end
  | Completing result =>
      match IdempotencyService.markAsCompleted idempotencyKey
              (res_transactionId result) result db with
      | (db1, t, Resolved _) => (db1, advance c (Settled (Resolved (Some result))) t)
      | (db1, t, Rejected e) => (db1, advance c (Failing e) t)
      end
  | Failing error =>
      match IdempotencyService.markAsFailed idempotencyKey (error_message error) db with
      | (db1, t, Resolved _) => (db1, advance c (Settled (Rejected error)) t)
      | (db1, t, Rejected e) => (db1, advance c (Settled (Rejected e)) t)
      end
  | Settled _ => (db, c)
  end.

Fixpoint call_steps (n : nat) (c : Call) (db : DB) : DB * Call :=
  match n with
  | O => (db, c)
  | S n => let '(db1, c1) := call_step c db in call_steps n c1 db1
  end.

(** The system: one database, many calls, and a scheduler that picks which
    call takes the next step. *)
Record Config := mkConfig {
  cfg_db : DB;
  cfg_calls : list Call;
}.

Definition sched_step (cfg : Config) (i : nat) : Config :=
  match cfg_calls cfg !! i with
  | Some c =>
      let '(db1, c1) := call_step c (cfg_db cfg) in
      mkConfig db1 (<[i := c1]> (cfg_calls cfg))
  | None => cfg
  end.

Definition run (schedule : list nat) (cfg : Config) : Config :=
  foldl sched_step cfg schedule.

Definition started (c : Call) : Prop :=
  call_stage c = Validating ∧ call_trace c = [].

(** The call whose insert of the Pending record was accepted. *)
Definition created_pending (c : Call) : Prop :=
  InsertLog (key_of c) true ∈ call_trace c.

Definition status_at (db : DB) (key : string) : option TransactionLogStatus.t :=
  log_status <$> transaction_logs db !! key.

Definition mark_completed (result : TransferResponse) (l : TransactionLog)
    : TransactionLog :=
  mkTransactionLog (log_idempotencyKey l) TransactionLogStatus.COMPLETED
    (Some (res_transactionId result)) (log_requestPayload l) (Some result)
    (log_errorMessage l).

Definition mark_failed (errorMessage : string) (l : TransactionLog) : TransactionLog :=
  mkTransactionLog (log_idempotencyKey l) TransactionLogStatus.FAILED
    (log_transactionId l) (log_requestPayload l) (log_responsePayload l)
    (Some errorMessage).

(** *** The invariant of a system of calls *)

Definition executed (key : string) (t : list Event) : Prop :=
  ∃ t', t = SelectLog key :: InsertLog key true :: Begin :: t'.

(** What holds of a call at each stage, over the database it runs on. *)
Definition call_inv (db : DB) (c : Call) : Prop :=
  let key := key_of c in
  match call_stage c with
  | Validating | Checking => call_trace c = []
  | Creating => call_trace c = [SelectLog key]
  | Transacting =>
      call_trace c = [SelectLog key; InsertLog key true]
      ∧ status_at db key = Some TransactionLogStatus.PENDING
  | Completing _ | Failing _ =>
      executed key (call_trace c)
      ∧ status_at db key = Some TransactionLogStatus.PENDING
  | Settled o =>
      (executed key (call_trace c) ∧ is_Some (status_at db key))
      ∨ (call_trace c = [] ∧ o = Rejected invalid_amount
         ∧ ¬ is_positive (req_amount (call_request c)))
      ∨ (call_trace c = [SelectLog key] ∧ o = Rejected conflict_pending
         ∧ is_Some (status_at db key))
      ∨ (call_trace c = [SelectLog key; InsertLog key false]
         ∧ o = Rejected conflict_insert ∧ is_Some (status_at db key))
      ∨ (call_trace c = [SelectLog key]
         ∧ ∃ l, transaction_logs db !! key = Some l
                ∧ log_status l = TransactionLogStatus.COMPLETED
                ∧ o = Resolved (log_responsePayload l))
  end.

Definition sys_inv (cfg : Config) : Prop :=
  (∀ i c, cfg_calls cfg !! i = Some c → call_inv (cfg_db cfg) c)
  ∧ (∀ i j ci cj,
       cfg_calls cfg !! i = Some ci → cfg_calls cfg !! j = Some cj →
       key_of ci = key_of cj → created_pending ci → created_pending cj → i = j).

(** The moves of the ledger's state machine for one key. *)
Inductive ledger_move : option TransactionLogStatus.t → option TransactionLogStatus.t → Prop :=
| move_create : ledger_move None (Some TransactionLogStatus.PENDING)
| move_complete :
    ledger_move (Some TransactionLogStatus.PENDING) (Some TransactionLogStatus.COMPLETED)
| move_fail :
    ledger_move (Some TransactionLogStatus.PENDING) (Some TransactionLogStatus.FAILED).

(** What one step of a call does to the ledger. *)
Inductive step_effect (c c1 : Call) (db db1 : DB) : Prop :=
| effect_none :
    transaction_logs db1 = transaction_logs db →
    step_effect c c1 db db1
| effect_create :
    transaction_logs db !! key_of c = None →
    transaction_logs db1
    = <[key_of c := pending_log (call_request c)]> (transaction_logs db) →
    created_pending c1 →
    step_effect c c1 db db1
| effect_mark f :
    created_pending c →
    status_at db (key_of c) = Some TransactionLogStatus.PENDING →
    transaction_logs db1 = alter f (key_of c) (transaction_logs db) →
    (∀ l, log_status (f l) = TransactionLogStatus.COMPLETED
          ∨ log_status (f l) = TransactionLogStatus.FAILED) →
    step_effect c c1 db db1.



(** ** Concrete runs: the wallets and transfers of the test suite *)

Definition run_ {A} (m : M A) (db : DB) : DB := db_of (m db).

Definition env1 : Env := mkEnv "3f2b8c1a-0000-4000-8000-000000000001" "t-1" 1.
Definition env2 : Env := mkEnv "9d4e7a60-0000-4000-8000-000000000002" "t-2" 2.
Definition env3 : Env := mkEnv "c7a1e5d2-0000-4000-8000-000000000003" "t-3" 3.

(** [sender] holds 1000.00 and [receiver] 500.00. *)
Definition db_empty : DB := mkDB [] [] ∅.
Definition db_two : DB :=
  run_ (WalletService.createWallet (mkEnv "" "w-2" 0) "receiver" (whole 500))
    (run_ (WalletService.createWallet (mkEnv "" "w-1" 0) "sender" (whole 1000)) db_empty).

Definition balance_of (userId : string) (db : DB) : option Z :=
  wallet_balance <$> List.find (has_userId userId) (wallets db).

Definition req1 : TransferRequest :=
  mkTransferRequest "sender" "receiver" (whole 200) None "K1".

Definition req_back : TransferRequest :=
  mkTransferRequest "receiver" "sender" (whole 200) None "K1".
Definition req_too_much : TransferRequest :=
  mkTransferRequest "sender" "receiver" (whole 1500) None "K2".
Definition req_retry : TransferRequest :=
  mkTransferRequest "sender" "receiver" (whole 200) None "K2".
Definition req_other_amount : TransferRequest :=
  mkTransferRequest "sender" "receiver" (whole 999) (Some "again") "K1".
Definition req_zero : TransferRequest :=
  mkTransferRequest "sender" "receiver" (whole 0) None "K1".

(** Amounts with a third decimal: 100.005 and 0.001. *)
Definition req_half_cent : TransferRequest :=
  mkTransferRequest "sender" "receiver" (mkNumber 100005 3) None "K6".

Definition db_done : DB := db_of (WalletService.processTransfer env1 req1 db_two).
Definition db_failed : DB :=
  db_of (WalletService.processTransfer env1 req_too_much db_two).

(** A second transfer, later, from [receiver] to a third owner, and a
    third, later still, back to [sender]: the table of transfers then holds
    three rows, the oldest first. *)
Definition req_aside : TransferRequest :=
  mkTransferRequest "receiver" "third" (mkNumber 5050 2) None "K7".
Definition req_return : TransferRequest :=
  mkTransferRequest "receiver" "sender" (whole 50) (Some "thanks") "K8".
Definition db_three : DB :=
  run_ (WalletService.processTransfer env3 req_return)
    (run_ (WalletService.processTransfer env2 req_aside)
       (run_ (WalletService.createWallet (mkEnv "" "w-3" 0) "third" (whole 0)) db_done)).

Definition sender : Wallet := mkWallet "w-1" "sender" 100000.
Definition receiver : Wallet := mkWallet "w-2" "receiver" 50000.

Definition response1 : TransferResponse :=
  mkTransferResponse "t-1" "w-1" "w-2" (whole 200) "COMPLETED" "TXN-3F2B8C1A"
    "Transfer completed successfully".

(** Two calls with the key K1, both started, on the two wallets. *)
Definition cfg_double_tap : Config :=
  mkConfig db_two [start env1 req1; start env2 req_other_amount].

(** The second call passes its validation, the first runs to its end, and
    only then does the second look the key up. *)
Definition late_lookup : list nat := [1; 0; 0; 0; 0; 0; 1]%nat.

(** Both calls look the key up before either inserts. *)
Definition racing_inserts : list nat := [0; 1; 0; 1; 0; 1; 0; 0]%nat.

(** Two transfers out of [sender], of 600.00 each, on two keys; the engine
    aborts the transaction of the second at its second statement. *)
Definition req_600_a : TransferRequest :=
  mkTransferRequest "sender" "receiver" (whole 600) None "K3".
Definition req_600_b : TransferRequest :=
  mkTransferRequest "sender" "receiver" (whole 600) None "K4".
Definition serialization_failure : string :=
  "could not serialize access due to concurrent update".
Definition cfg_two_spenders : Config :=
  mkConfig db_two
    [start env1 req_600_a;
     start_under (Aborts 1 serialization_failure) env2 req_600_b].
Definition side_by_side : list nat := [0; 1; 0; 1; 0; 1; 0; 1; 0; 1]%nat.

(** ** Further definitions: the table of wallets, the retention job, the controller *)

(** What the primary key, the unique index on [userId] and the [min: 0]
    validator of [wallet.model.ts] ask of the table. *)
Definition wallets_ok (ws : list Wallet) : Prop :=
  NoDup (wallet_id <$> ws)
  ∧ NoDup (wallet_userId <$> ws)
  ∧ Forall (λ w, 0 ≤ wallet_balance w) ws.

Definition wallet_not_found : Error := AppError "Wallet not found" 404.

(** One debit and one credit of a positive amount the source balance
    covers. *)
Definition wallets_move (x : JsNumber) (ws ws' : list Wallet) : Prop :=
  ws' = ws
  ∨ ∃ fw tw,
      fw ∈ ws ∧ tw ∈ ws ∧ is_positive x ∧ covers (wallet_balance fw) x
      ∧ ws' = add_balance (wallet_id tw) x
                <$> (add_balance (wallet_id fw) (num_opp x) <$> ws).

(** The transfers that have a wallet as source or destination. *)
Definition matching (walletId : string) (ts : list Transaction) : list Transaction :=
  filter (λ t, touches walletId t = true) ts.

(** Every call that has resolved finds its response in the ledger. *)
Definition resolved_inv (cfg : Config) : Prop :=
  ∀ i c p,
    cfg_calls cfg !! i = Some c →
    call_stage c = Settled (Resolved p) →
    ∃ l, transaction_logs (cfg_db cfg) !! key_of c = Some l
         ∧ log_status l = TransactionLogStatus.COMPLETED
         ∧ log_responsePayload l = p.

(** *** [cleanupOldLogs] of [idempotency.service.ts]

    The only function that reads the [createdAt] column of
    [transaction_logs]; for it the rows carry that column (in milliseconds,
    as [Date.now()] counts).  The age is a whole number of hours, 24 when
    the argument is left out. *)
Record DatedLog := mkDatedLog {
  dated_createdAt : Z;
  dated_log : TransactionLog;
}.

(** [where: { status: [COMPLETED, FAILED], createdAt: { [Op.lt]: cutoffDate } }] *)
Definition destroyed (cutoffDate : Z) (row : DatedLog) : Prop :=
  (log_status (dated_log row) = TransactionLogStatus.COMPLETED
   ∨ log_status (dated_log row) = TransactionLogStatus.FAILED)
  ∧ dated_createdAt row < cutoffDate.

#[global] Instance destroyed_dec cutoffDate row : Decision (destroyed cutoffDate row).
Proof. unfold destroyed. apply _. Defined.

Definition cutoff (now : Z) (hoursOld : option Z) : Z :=
  now - default 24 hoursOld * 60 * 60 * 1000.

(** The table after [TransactionLog.destroy], and the number of rows it
    destroyed, which [cleanupOldLogs] returns. *)
Definition cleanupOldLogs (now : Z) (hoursOld : option Z) (logs : gmap string DatedLog)
    : gmap string DatedLog * nat :=
  let cutoffDate := cutoff now hoursOld in
  (filter (λ kv, ¬ destroyed cutoffDate kv.2) logs,
   size (filter (λ kv, destroyed cutoffDate kv.2) logs)).

(** The ledger as the other services see it. *)
Definition ledger_of (logs : gmap string DatedLog) : gmap string TransactionLog :=
  dated_log <$> logs.

(** *** [transfer.controller.ts]: the endpoint in front of [processTransfer]

    The body of the request, for bodies whose identifiers and key are
    strings and whose amount is a number, each present or not.  On a number
    [parseFloat(amount)] is that number.  The result is what [sendSuccess]
    is given. *)
Record TransferBody := mkTransferBody {
  body_fromUserId : option string;
  body_toUserId : option string;
  body_amount : option JsNumber;
  body_description : option string;
  body_idempotencyKey : option string;
}.

(** [!x] is false: the string is there and not empty, the number is there
    and not zero. *)
Definition truthy_string (x : option string) : option string :=
  match x with
  | Some s => if bool_decide (s = "") then None else Some s
  | None => None
  end.

Definition truthy_number (x : option JsNumber) : option JsNumber :=
  match x with
  | Some n => if is_zero n then None else Some n
  | None => None
  end.

Definition missing_fields : Error :=
  AppError "Missing required fields: fromUserId, toUserId, amount, idempotencyKey" 400.
Definition same_wallet : Error := AppError "Cannot transfer to the same wallet" 400.

Module TransferController.

Definition transfer (env : Env) (body : TransferBody) : M (option TransferResponse) :=
  match truthy_string (body_fromUserId body), truthy_string (body_toUserId body),
        truthy_number (body_amount body), truthy_string (body_idempotencyKey body) with
  | Some fromUserId, Some toUserId, Some amount, Some idempotencyKey =>
      if bool_decide (fromUserId = toUserId)
      then throw same_wallet
      else WalletService.processTransfer env
             (mkTransferRequest fromUserId toUserId amount (body_description body)
                idempotencyKey)
  | _, _, _, _ => throw missing_fields
  end.

End TransferController.

(** ** Further scenarios *)


(** The ledger after the first transfer, every record created at instant 0,
    and an instant more than 24 hours later (in milliseconds). *)
Definition dated_done : gmap string DatedLog :=
  mkDatedLog 0 <$> transaction_logs db_done.
Definition two_days_later : Z := 2 * 24 * 60 * 60 * 1000.

Definition body_zero : TransferBody :=
  mkTransferBody (Some "sender") (Some "receiver") (Some (whole 0)) None (Some "K1").
Definition body_half_cent : TransferBody :=
  mkTransferBody (Some "sender") (Some "receiver") (Some (mkNumber 100005 3)) None
    (Some "K6").

(** The smallest number a [DECIMAL(15,2)] column refuses, and a wallet that
    holds the largest value the column takes, 9999999999999.99: a credit of
    0.01 does not fit it. *)
Definition ten_to_13 : JsNumber := whole (10 ^ 13).
Definition db_rich : DB :=
  run_ (WalletService.createWallet (mkEnv "" "w-9" 0) "rich" (mkNumber (10 ^ 15 - 1) 2))
    db_two.
Definition req_to_rich : TransferRequest :=
  mkTransferRequest "sender" "rich" (mkNumber 1 2) None "K9".

(** * Properties *)

(** ** Arithmetic of amounts *)

Lemma pow10_pos s : 0 < pow10 s.
Proof. unfold pow10. apply Z.pow_pos_nonneg; lia. Qed.

(** A number written with one more zero after its last decimal is the
    same number to every function above. *)
Lemma trailing_zero (x : JsNumber) (b c : Z) :
  let x' := mkNumber (10 * num_units x) (S (num_scale x)) in
  le_zero x' = le_zero x
  ∧ is_zero x' = is_zero x
  ∧ lt_hundredths x' c = lt_hundredths x c
  ∧ hundredths_lt b x' = hundredths_lt b x
  ∧ add_rounded b x' = add_rounded b x.
Proof.
  cbn zeta. pose proof (pow10_pos (num_scale x)) as Hd.
  assert (Hpow : pow10 (S (num_scale x)) = 10 * pow10 (num_scale x)).
  { unfold pow10. rewrite Nat2Z.inj_succ, Z.pow_succ_r by lia. done. }
  unfold le_zero, is_zero, lt_hundredths, hundredths_lt, add_rounded, round_half_away.
  cbn [num_units num_scale]. rewrite Hpow.
  set (d := pow10 (num_scale x)) in *. set (u := num_units x).
  split; [|split; [|split; [|split]]].
  - destruct (u <=? 0) eqn:H1; [apply Z.leb_le in H1|apply Z.leb_gt in H1];
      [apply Z.leb_le|apply Z.leb_gt]; lia.
  - destruct (u =? 0) eqn:H1; [apply Z.eqb_eq in H1|apply Z.eqb_neq in H1];
      [apply Z.eqb_eq|apply Z.eqb_neq]; lia.
  - destruct (100 * u <? c * d) eqn:H1; [apply Z.ltb_lt in H1|apply Z.ltb_ge in H1];
      [apply Z.ltb_lt|apply Z.ltb_ge]; lia.
  - destruct (b * d <? 100 * u) eqn:H1; [apply Z.ltb_lt in H1|apply Z.ltb_ge in H1];
      [apply Z.ltb_lt|apply Z.ltb_ge]; lia.
  - replace (b * (10 * d) + 100 * (10 * u)) with (10 * (b * d + 100 * u)) by lia.
    set (n := b * d + 100 * u).
    assert (Hsign : (0 <=? 10 * n) = (0 <=? n)).
    { destruct (0 <=? n) eqn:H1; [apply Z.leb_le in H1|apply Z.leb_gt in H1];
        [apply Z.leb_le|apply Z.leb_gt]; lia. }
    rewrite Hsign.
    replace (2 * (10 * n) + 10 * d) with (10 * (2 * n + d)) by lia.
    replace (2 * - (10 * n) + 10 * d) with (10 * (2 * - n + d)) by lia.
    replace (2 * (10 * d)) with (10 * (2 * d)) by lia.
    by rewrite !Z.div_mul_cancel_l by lia.
Qed.

Lemma le_zero_true x : le_zero x = true ↔ ¬ is_positive x.
Proof. unfold le_zero, is_positive. rewrite Z.leb_le. lia. Qed.

Lemma le_zero_false x : le_zero x = false ↔ is_positive x.
Proof. unfold le_zero, is_positive. rewrite Z.leb_gt. lia. Qed.

Lemma hundredths_lt_false b x : hundredths_lt b x = false ↔ covers b x.
Proof. unfold hundredths_lt, covers. rewrite Z.ltb_ge. lia. Qed.





(** A credit to a balance that is not negative adds [credit x]. *)
Lemma add_rounded_credit b x :
  0 ≤ b → is_positive x → add_rounded b x = b + credit x.
Proof.
  unfold is_positive, add_rounded, credit, round_half_away. intros Hb Hx.
  pose proof (pow10_pos (num_scale x)) as Hd.
  rewrite (proj2 (Z.leb_le _ _)) by nia.
  replace (2 * (b * pow10 (num_scale x) + 100 * num_units x) + pow10 (num_scale x))
    with (b * (2 * pow10 (num_scale x)) + (200 * num_units x + pow10 (num_scale x)))
    by lia.
  rewrite Z.div_add_l by lia. done.
Qed.

(** A debit from a balance that covers it takes [debit x]. *)
Lemma add_rounded_debit b x :
  covers b x → add_rounded b (num_opp x) = b - debit x.
Proof.
  unfold covers, add_rounded, debit, round_half_away. cbn. intros Hx.
  pose proof (pow10_pos (num_scale x)) as Hd.
  rewrite (proj2 (Z.leb_le _ _)) by lia.
  replace (2 * (b * pow10 (num_scale x) + 100 * - num_units x) + pow10 (num_scale x))
    with (b * (2 * pow10 (num_scale x)) + (pow10 (num_scale x) - 200 * num_units x))
    by lia.
  rewrite Z.div_add_l by lia. lia.
Qed.

(** The two roundings of an amount differ by at most one hundredth, and
    they differ when the amount lies half a hundredth off. *)
Lemma debit_credit x :
  is_positive x →
  0 ≤ debit x ∧ debit x ≤ credit x ∧ credit x ≤ debit x + 1
  ∧ (credit x = debit x + 1 ↔ half_hundredth x).
Proof.
  unfold is_positive, debit, credit, half_hundredth. intros Hx.
  pose proof (pow10_pos (num_scale x)) as Hd.
  set (d := pow10 (num_scale x)) in *. set (n := num_units x) in *.
  pose proof (Z.div_mod (200 * n + d) (2 * d)) as Hc.
  pose proof (Z.mod_pos_bound (200 * n + d) (2 * d)) as Hcb.
  pose proof (Z.div_mod (d - 200 * n) (2 * d)) as Hb.
  pose proof (Z.mod_pos_bound (d - 200 * n) (2 * d)) as Hbb.
  set (qc := (200 * n + d) / (2 * d)) in *. set (rc := (200 * n + d) mod (2 * d)) in *.
  set (qb := (d - 200 * n) / (2 * d)) in *. set (rb := (d - 200 * n) mod (2 * d)) in *.
  assert (Hsum : 2 * d = (qc + qb) * (2 * d) + (rc + rb)) by lia.
  assert (Hq : qc + qb = 0 ∨ qc + qb = 1) by nia.
  split; [nia|]. split; [lia|]. split; [lia|]. split.
  - intros Heq. assert (rc = 0) by nia. exists (qc - 1). nia.
  - intros [k Hk]. assert (Hrc : rc = 0).
    { assert (Hmul : 200 * n + d = (k + 1) * (2 * d)) by lia.
      unfold rc. rewrite Hmul. apply Z.mod_mul. lia. }
    nia.
Qed.

Lemma debit_covered b x : covers b x → debit x ≤ b.
Proof.
  unfold covers, debit. intros Hx.
  pose proof (pow10_pos (num_scale x)) as Hd.
  set (d := pow10 (num_scale x)) in *. set (n := num_units x) in *.
  pose proof (Z.div_mod (d - 200 * n) (2 * d)) as Hb.
  pose proof (Z.mod_pos_bound (d - 200 * n) (2 * d)) as Hbb.
  nia.
Qed.

Lemma hundredths_debit_credit x c :
  in_hundredths x c → debit x = c ∧ credit x = c.
Proof.
  unfold in_hundredths, debit, credit. intros Hc.
  pose proof (pow10_pos (num_scale x)) as Hd.
  set (d := pow10 (num_scale x)) in *. set (n := num_units x) in *.
  split.
  - assert (Hq : (d - 200 * n) / (2 * d) = - c)
      by (symmetry; apply (Z.div_unique _ _ _ d); nia).
    lia.
  - symmetry. apply (Z.div_unique _ _ _ d); nia.
Qed.

Lemma hundredths_not_half x c : in_hundredths x c → ¬ half_hundredth x.
Proof.
  unfold in_hundredths, half_hundredth. intros Hc [k Hk].
  pose proof (pow10_pos (num_scale x)) as Hd.
  assert (2 * c = 2 * k + 1) by (apply (Z.mul_reg_r _ _ (pow10 (num_scale x))); lia).
  lia.
Qed.

Lemma rounded_credit x : is_positive x → rounded x = credit x.
Proof. intros Hx. unfold rounded. by rewrite add_rounded_credit. Qed.





(** ** Running the services symbolically *)

Ltac unfold_services :=
  unfold WalletService.processTransfer, WalletService.processTransfer_attempt,
    WalletService.getTransactionHistory,
    WalletService.getWalletByUserId, WalletService.createWallet,
    IdempotencyService.checkIdempotencyKey, IdempotencyService.createPendingLog,
    IdempotencyService.markAsCompleted, IdempotencyService.markAsFailed.

Ltac unfold_statements :=
  unfold TransactionLog_findOne, TransactionLog_create, TransactionLog_update,
    Wallet_findOne, Wallet_findOne_forUpdate, Wallet_increment, Wallet_decrement,
    Wallet_update_balance,
    Transaction_create, Transaction_update, Transaction_findAll_of_wallet.

Ltac unfold_async := unfold bind, try_catch, transaction, ret, throw.

Ltac run_async := unfold_services; unfold_async; unfold_statements; cbn.

Section sequential.
Variable env : Env.
Variable request : TransferRequest.
Variable db : DB.

Let key := req_idempotencyKey request.

Lemma processTransfer_rejects_nonpositive :
  ¬ is_positive (req_amount request) →
  WalletService.processTransfer env request db
  = (db, [], Rejected (AppError "Transfer amount must be greater than 0" 400)).
Proof.
  intros Hle. unfold WalletService.processTransfer, throw.
  by apply le_zero_true in Hle as ->.
Qed.

Lemma processTransfer_completed_key (l : TransactionLog) :
  is_positive (req_amount request) →
  transaction_logs db !! key = Some l →
  log_status l = TransactionLogStatus.COMPLETED →
  WalletService.processTransfer env request db
  = (db, [SelectLog key], Resolved (log_responsePayload l)).
Proof.
  intros Hpos Hl Hst. run_async.
  rewrite (proj2 (le_zero_false _) Hpos). fold key. rewrite Hl. cbn. by rewrite Hst.
Qed.

Lemma processTransfer_pending_key (l : TransactionLog) :
  is_positive (req_amount request) →
  transaction_logs db !! key = Some l →
  log_status l = TransactionLogStatus.PENDING →
  WalletService.processTransfer env request db
  = (db, [SelectLog key],
     Rejected (AppError "This transaction is already being processed" 409)).
Proof.
  intros Hpos Hl Hst. run_async.
  rewrite (proj2 (le_zero_false _) Hpos). fold key. rewrite Hl. cbn. by rewrite Hst.
Qed.

Lemma processTransfer_failed_key (l : TransactionLog) :
  is_positive (req_amount request) →
  transaction_logs db !! key = Some l →
  log_status l = TransactionLogStatus.FAILED →
  WalletService.processTransfer env request db
  = (db, [SelectLog key; InsertLog key false],
     Rejected (AppError "Request is already being processed. Please wait." 409)).
Proof.
  intros Hpos Hl Hst. run_async.
  rewrite (proj2 (le_zero_false _) Hpos). fold key. rewrite Hl. cbn. rewrite Hst.
  by rewrite Hl.
Qed.

End sequential.

Ltac unfold_unit :=
  unfold WalletService.processTransfer_unit; unfold_async; unfold_statements; cbn.

Lemma unit_preserves_logs env request db :
  transaction_logs (db_of (WalletService.processTransfer_unit env request db))
  = transaction_logs db.
Proof.
  unfold_unit. repeat case_match; simplify_eq/=; done.
Qed.

Section fresh_key.
Variable env : Env.
Variable request : TransferRequest.
Variable db : DB.

Let key := req_idempotencyKey request.

Hypothesis Hpos : is_positive (req_amount request).
Hypothesis Hfresh : transaction_logs db !! key = None.

(** With a fresh key the call runs the atomic unit on the database that
    holds the Pending record, and settles the record by its outcome. *)
Lemma processTransfer_fresh_key :
  WalletService.processTransfer env request db
  = match WalletService.processTransfer_unit env request (with_pending request db) with
    | (db2, t, Resolved result) =>
        (with_logs (<[key := completed_log request result]> (transaction_logs db))
           db2,
         [SelectLog key; InsertLog key true; Begin] ++ t
           ++ [Commit; UpdateLog key TransactionLogStatus.COMPLETED],
         Resolved (Some result))
    | (_, t, Rejected error) =>
        (with_logs (<[key := failed_log request error]> (transaction_logs db)) db,
         [SelectLog key; InsertLog key true; Begin] ++ t
           ++ [Rollback; UpdateLog key TransactionLogStatus.FAILED],
         Rejected error)
    end.
Proof.
  pose proof (unit_preserves_logs env request (with_pending request db)) as Hlogs.
  unfold_services.
  remember (WalletService.processTransfer_unit env request) as u eqn:Hu.
  clear Hu. unfold_async; unfold_statements; cbn.
  subst key.
  rewrite (proj2 (le_zero_false _) Hpos), Hfresh. cbn. rewrite Hfresh. cbn.
  repeat match goal with
  | |- context [u ?d] => progress change d with (with_pending request db)
  end.
  fold (pending_log request). fold (with_pending request db).
  destruct (u (with_pending request db)) as [[db2 t] [result|error]]; cbn in *.
  - by rewrite Hlogs, alter_insert_eq, <- app_assoc.
  - by rewrite alter_insert_eq, <- app_assoc.
Qed.
End fresh_key.

(** The atomic unit, check by check. *)
Lemma unit_run env request db :
  WalletService.processTransfer_unit env request db
  = match List.find (has_userId (req_fromUserId request)) (wallets db) with
    | None =>
        (db, [SelectWalletForUpdate (req_fromUserId request) None],
         Rejected (AppError "Source wallet not found" 404))
    | Some fw =>
        match List.find (has_userId (req_toUserId request)) (wallets db) with
        | None =>
            (db, [SelectWalletForUpdate (req_fromUserId request) (Some (wallet_id fw));
                  SelectWalletForUpdate (req_toUserId request) None],
             Rejected (AppError "Destination wallet not found" 404))
        | Some tw =>
            let amount := req_amount request in
            let id := env_defaultId env in
            if hundredths_lt (wallet_balance fw) amount
            then (db, unit_locks request fw tw,
                  Rejected (AppError "Insufficient balance" 400))
            else if lt_hundredths amount 1
            then (db, unit_locks request fw tw, Rejected (validation_min "amount"))
            else if negb (fits (rounded amount))
            then (db, unit_locks request fw tw ++ [InsertTransaction id false],
                  Rejected numeric_overflow)
            else if existsb (collides env) (transactions db)
            then (db, unit_locks request fw tw ++ [InsertTransaction id false],
                  Rejected SequelizeUniqueConstraintError)
            else if overflows (wallet_id fw) (num_opp amount) (wallets db)
            then (inserted env request fw tw db,
                  unit_locks request fw tw
                    ++ [InsertTransaction id true;
                        UpdateWalletBalance (wallet_id fw) (num_opp amount) false],
                  Rejected numeric_overflow)
            else if overflows (wallet_id tw) amount
                      (add_balance (wallet_id fw) (num_opp amount) <$> wallets db)
            then (debited env request fw tw db,
                  unit_locks request fw tw
                    ++ [InsertTransaction id true;
                        UpdateWalletBalance (wallet_id fw) (num_opp amount) true;
                        UpdateWalletBalance (wallet_id tw) amount false],
                  Rejected numeric_overflow)
            else (transferred env request fw tw db,
                  unit_locks request fw tw
                    ++ [InsertTransaction id true;
                        UpdateWalletBalance (wallet_id fw) (num_opp amount) true;
                        UpdateWalletBalance (wallet_id tw) amount true;
                        UpdateTransaction id TransactionStatus.COMPLETED],
                  Resolved (transfer_response env request fw tw))
        end
    end.
Proof.
  unfold_unit. unfold collides.
  destruct (List.find (has_userId (req_fromUserId request)) (wallets db)) as [fw|];
    cbn; [|done].
  unfold_async. unfold_statements. cbn.
  destruct (List.find (has_userId (req_toUserId request)) (wallets db)) as [tw|];
    cbn; [|done].
  destruct (hundredths_lt (wallet_balance fw) (req_amount request)); cbn; [done|].
  unfold_async. unfold_statements. cbn.
  destruct (lt_hundredths (req_amount request) 1); cbn; [done|].
  destruct (fits (rounded (req_amount request))); cbn; [|done].
  destruct (existsb _ (transactions db)); cbn; [done|].
  unfold overflows.
  destruct (existsb _ (wallets db)); cbn; [done|].
  destruct (existsb _ (_ <$> wallets db)); cbn; done.
Qed.

Lemma add_balance_id j d w : wallet_id (add_balance j d w) = wallet_id w.
Proof. unfold add_balance. by destruct (has_id j w). Qed.

Lemma add_balance_same j d w :
  wallet_id w = j →
  wallet_balance (add_balance j d w) = add_rounded (wallet_balance w) d.
Proof. intros. unfold add_balance, has_id. by rewrite bool_decide_eq_true_2. Qed.

Lemma add_balance_other j d w : wallet_id w ≠ j → add_balance j d w = w.
Proof. intros. unfold add_balance, has_id. by rewrite bool_decide_eq_false_2. Qed.

Lemma add_balance_ids j d (ws : list Wallet) :
  wallet_id <$> (add_balance j d <$> ws) = wallet_id <$> ws.
Proof.
  rewrite <- list_fmap_compose. apply list_fmap_ext. intros _ w _. cbn.
  apply add_balance_id.
Qed.

Lemma find_fmap_invariant {A} (p : A → bool) (f : A → A) (l : list A) :
  (∀ a, p (f a) = p a) → List.find p (f <$> l) = f <$> List.find p l.
Proof.
  intros Hp. induction l as [|a l IH]; cbn; [done|].
  rewrite Hp. by destruct (p a).
Qed.

Lemma find_id_add_balance i j d (ws : list Wallet) :
  List.find (has_id i) (add_balance j d <$> ws)
  = add_balance j d <$> List.find (has_id i) ws.
Proof.
  apply find_fmap_invariant. intros w. unfold has_id. by rewrite add_balance_id.
Qed.

Lemma find_elem_of {A} (p : A → bool) (l : list A) (a : A) :
  List.find p l = Some a → a ∈ l ∧ p a = true.
Proof.
  induction l as [|b l IH]; cbn; [done|].
  destruct (p b) eqn:Hb.
  - intros [= ->]. split; [left|done].
  - intros [? ?]%IH. split; [by right|done].
Qed.

Lemma add_balance_absent j d (ws : list Wallet) :
  j ∉ wallet_id <$> ws → add_balance j d <$> ws = ws.
Proof.
  induction ws as [|w ws IH]; cbn; [done|].
  intros [Hne Hnot]%not_elem_of_cons. rewrite IH by done. f_equal.
  unfold add_balance, has_id. by rewrite bool_decide_eq_false_2.
Qed.

Lemma total_balance_cons w ws :
  total_balance (w :: ws) = wallet_balance w + total_balance ws.
Proof. done. Qed.

Lemma find_by_own_id (ws : list Wallet) (w : Wallet) :
  NoDup (wallet_id <$> ws) → w ∈ ws → List.find (has_id (wallet_id w)) ws = Some w.
Proof.
  induction ws as [|a ws IH]; rewrite ?fmap_cons; [by intros _ ?%elem_of_nil|].
  intros [Ha Hnd]%NoDup_cons Hin. cbn. unfold has_id at 1.
  apply elem_of_cons in Hin as [->|Hin].
  - by rewrite bool_decide_eq_true_2.
  - rewrite bool_decide_eq_false_2; [by apply IH|].
    intros Heq. apply Ha. rewrite Heq. by apply list_elem_of_fmap_2.
Qed.

(** An update of the balance of one wallet changes the sum of the balances
    by what it changes that balance. *)
Lemma total_add_balance d (ws : list Wallet) (w : Wallet) :
  NoDup (wallet_id <$> ws) →
  w ∈ ws →
  total_balance (add_balance (wallet_id w) d <$> ws)
  = total_balance ws + (add_rounded (wallet_balance w) d - wallet_balance w).
Proof.
  induction ws as [|a ws IH]; rewrite ?fmap_cons.
  - by intros _ ?%elem_of_nil.
  - intros [Ha Hnd]%NoDup_cons Hin. rewrite !total_balance_cons.
    apply elem_of_cons in Hin as [->|Hin].
    + rewrite add_balance_absent by done. rewrite add_balance_same by done. lia.
    + rewrite IH by done. rewrite add_balance_other; [lia|].
      intros Heq. apply Ha. rewrite Heq. by apply list_elem_of_fmap_2.
Qed.


Lemma set_status_absent id st (ts : list Transaction) :
  existsb (λ t, bool_decide (txn_id t = id)) ts = false →
  set_status id st <$> ts = ts.
Proof.
  induction ts as [|t ts IH]; cbn; [done|].
  intros [Ht Hts]%orb_false_iff. rewrite IH by done. f_equal.
  unfold set_status. by rewrite Ht.
Qed.

Lemma collides_false_id env ts :
  existsb (collides env) ts = false →
  existsb (λ t, bool_decide (txn_id t = env_defaultId env)) ts = false.
Proof.
  induction ts as [|t ts IH]; cbn; [done|].
  intros [Ht Hts]%orb_false_iff. rewrite IH by done.
  unfold collides in Ht. apply orb_false_iff in Ht as [-> _]. done.
Qed.

Lemma transferred_transactions env request fw tw db :
  existsb (collides env) (transactions db) = false →
  transactions (transferred env request fw tw db)
  = transactions db ++ [transfer_row env request fw tw TransactionStatus.COMPLETED].
Proof.
  intros Hc. cbn. rewrite fmap_app, set_status_absent by by apply collides_false_id.
  cbn. unfold set_status. cbn. by rewrite bool_decide_eq_true_2.
Qed.

(** Case analysis on the checks of the atomic unit, in [unit_run]. *)
Ltac destruct_unit :=
  cbv zeta;
  repeat match goal with
  | |- context [match List.find ?p ?l with _ => _ end] => destruct (List.find p l) eqn:?
  | |- context [if hundredths_lt ?b ?x then _ else _] =>
      destruct (hundredths_lt b x) eqn:?
  | |- context [if lt_hundredths ?x ?c then _ else _] =>
      destruct (lt_hundredths x c) eqn:?
  | |- context [if negb (fits ?c) then _ else _] => destruct (fits c) eqn:?; cbn [negb]
  | |- context [if existsb ?p ?l then _ else _] => destruct (existsb p l) eqn:?
  | |- context [if overflows ?i ?d ?l then _ else _] => destruct (overflows i d l) eqn:?
  end.

(** *** Which calls reach the atomic unit *)

Lemma processTransfer_stopped_early env request db e :
  ¬ is_positive (req_amount request)
  ∨ is_Some (transaction_logs db !! req_idempotencyKey request) →
  e ∈ trace_of (WalletService.processTransfer env request db) →
  e = SelectLog (req_idempotencyKey request)
  ∨ e = InsertLog (req_idempotencyKey request) false.
Proof.
  intros Hstop Hin. destruct (decide (is_positive (req_amount request))) as [Hpos|Hle].
  2:{ rewrite processTransfer_rejects_nonpositive in Hin by done.
      by apply elem_of_nil in Hin. }
  destruct Hstop as [?|[l Hl]]; [done|].
  destruct (log_status l) eqn:Hst.
  - rewrite (processTransfer_pending_key _ _ _ l) in Hin by done.
    apply list_elem_of_singleton in Hin. by left.
  - rewrite (processTransfer_completed_key _ _ _ l) in Hin by done.
    apply list_elem_of_singleton in Hin. by left.
  - rewrite (processTransfer_failed_key _ _ _ l) in Hin by done.
    apply elem_of_cons in Hin as [?|Hin]; [by left|].
    apply list_elem_of_singleton in Hin. by right.
Qed.

Lemma reaches_unit env request db e :
  e ∈ [Begin; Commit; Rollback] →
  e ∈ trace_of (WalletService.processTransfer env request db) →
  is_positive (req_amount request)
  ∧ transaction_logs db !! req_idempotencyKey request = None.
Proof.
  intros He Hin.
  destruct (decide (is_positive (req_amount request))) as [Hpos|Hle].
  2:{ destruct (processTransfer_stopped_early env request db e) as [->| ->];
        [by left|done|..]; exfalso;
        repeat (apply elem_of_cons in He as [?|He]; [done|]); by apply elem_of_nil in He. }
  destruct (transaction_logs db !! req_idempotencyKey request) as [l|] eqn:Hl.
  { destruct (processTransfer_stopped_early env request db e) as [->| ->];
      [by right; rewrite Hl|done|..]; exfalso;
      repeat (apply elem_of_cons in He as [?|He]; [done|]); by apply elem_of_nil in He. }
  done.
Qed.

Ltac no_such_event H :=
  repeat (apply elem_of_cons in H as [H|H]; [discriminate H|]);
  by apply elem_of_nil in H.

(** A call that commits found both wallets, passed every check of the unit
    and left the database of the completed transfer. *)
Lemma committed_run env request db :
  Commit ∈ trace_of (WalletService.processTransfer env request db) →
  ∃ fw tw,
    List.find (has_userId (req_fromUserId request)) (wallets db) = Some fw
    ∧ List.find (has_userId (req_toUserId request)) (wallets db) = Some tw
    ∧ is_positive (req_amount request)
    ∧ covers (wallet_balance fw) (req_amount request)
    ∧ existsb (collides env) (transactions db) = false
    ∧ WalletService.processTransfer env request db
      = (with_logs (<[req_idempotencyKey request
                        := completed_log request (transfer_response env request fw tw)]>
                      (transaction_logs db))
           (transferred env request fw tw (with_pending request db)),
         [SelectLog (req_idempotencyKey request);
          InsertLog (req_idempotencyKey request) true; Begin]
           ++ (unit_locks request fw tw
                 ++ [InsertTransaction (env_defaultId env) true;
                     UpdateWalletBalance (wallet_id fw) (num_opp (req_amount request)) true;
                     UpdateWalletBalance (wallet_id tw) (req_amount request) true;
                     UpdateTransaction (env_defaultId env) TransactionStatus.COMPLETED])
           ++ [Commit; UpdateLog (req_idempotencyKey request)
                         TransactionLogStatus.COMPLETED],
         Resolved (Some (transfer_response env request fw tw))).
Proof.
  intros Hc.
  assert (Hreach : is_positive (req_amount request)
                   ∧ transaction_logs db !! req_idempotencyKey request = None).
  { apply (reaches_unit env request db Commit); [|exact Hc].
    apply elem_of_cons; right. apply elem_of_cons; by left. }
  destruct Hreach as [Hpos Hfresh].
  pose proof (processTransfer_fresh_key env request db Hpos Hfresh) as Hrun.
  rewrite unit_run in Hrun. rewrite Hrun in Hc |- *. clear Hrun.
  cbn -[transferred inserted debited overflows] in Hc |- *.
  destruct (List.find (has_userId (req_fromUserId request)) (wallets db)) as [fw|];
    [|exfalso; no_such_event Hc].
  destruct (List.find (has_userId (req_toUserId request)) (wallets db)) as [tw|];
    [|exfalso; no_such_event Hc].
  destruct (hundredths_lt (wallet_balance fw) (req_amount request)) eqn:Hcov;
    [exfalso; no_such_event Hc|].
  destruct (lt_hundredths (req_amount request) 1); [exfalso; no_such_event Hc|].
  destruct (fits (rounded (req_amount request))); [|exfalso; no_such_event Hc].
  cbn -[transferred inserted debited overflows] in Hc |- *.
  destruct (existsb (collides env) (transactions db)) eqn:Hcol;
    [exfalso; no_such_event Hc|].
  destruct (overflows (wallet_id fw) _ (wallets db)); [exfalso; no_such_event Hc|].
  destruct (overflows (wallet_id tw) _ _); [exfalso; no_such_event Hc|].
  exists fw, tw. apply hundredths_lt_false in Hcov. done.
Qed.

(** ** The claims on [processTransfer], one call at a time *)

(** C8: an amount that is zero or negative is rejected with
    "Transfer amount must be greater than 0" (400) before anything else: the
    call sends no statement at all (no look-up of the key, no insert of a
    Pending record) and the database is what it was, whatever the ledger
    holds for the key. *)
Theorem processTransfer_validates_amount_first env request db :
  ¬ is_positive (req_amount request) →
  let r := WalletService.processTransfer env request db in
  outcome_of r = Rejected invalid_amount ∧ trace_of r = [] ∧ db_of r = db.
Proof. intros Hle. cbn zeta. by rewrite processTransfer_rejects_nonpositive. Qed.

(** C3: when the ledger holds a Completed record for the key, a call with
    that key and any positive amount, whatever the rest of the request,
    resolves with the stored response as it is; it sends the look-up of the
    key and nothing else (no wallet is read, none is written) and the
    database is what it was. *)
Theorem processTransfer_replays_completed env request db l :
  is_positive (req_amount request) →
  transaction_logs db !! req_idempotencyKey request = Some l →
  log_status l = TransactionLogStatus.COMPLETED →
  let r := WalletService.processTransfer env request db in
  outcome_of r = Resolved (log_responsePayload l)
  ∧ trace_of r = [SelectLog (req_idempotencyKey request)]
  ∧ db_of r = db.
Proof.
  intros Hpos Hl Hst. cbn zeta. by rewrite (processTransfer_completed_key _ _ _ l).
Qed.

(** Two calls on one key: when the first resolves, the second resolves with
    the same response and changes nothing. *)
Corollary processTransfer_twice env request env' request' db p :
  outcome_of (WalletService.processTransfer env request db) = Resolved p →
  req_idempotencyKey request' = req_idempotencyKey request →
  is_positive (req_amount request') →
  let db1 := db_of (WalletService.processTransfer env request db) in
  WalletService.processTransfer env' request' db1
  = (db1, [SelectLog (req_idempotencyKey request)], Resolved p).
Proof.
  intros Hout Hkey Hpos. cbn zeta. revert Hout.
  destruct (decide (is_positive (req_amount request))) as [Hpos0|Hle].
  2:{ by rewrite processTransfer_rejects_nonpositive. }
  destruct (transaction_logs db !! req_idempotencyKey request) as [l|] eqn:Hl.
  - destruct (log_status l) eqn:Hst.
    + by rewrite (processTransfer_pending_key _ _ _ l).
    + rewrite (processTransfer_completed_key _ _ _ l) by done. cbn. intros [= <-].
      rewrite <- Hkey. apply processTransfer_completed_key; [done| |done].
      by rewrite Hkey.
    + by rewrite (processTransfer_failed_key _ _ _ l).
  - rewrite processTransfer_fresh_key by done.
    destruct (WalletService.processTransfer_unit env request _)
      as [[db2 t] [result|error]]; [|done].
    cbn. intros [= <-]. rewrite <- Hkey.
    apply (processTransfer_completed_key _ _ _ (completed_log request result));
      [done| |done].
    cbn. by rewrite Hkey, lookup_insert_eq.
Qed.

Section claims_sequential.
Variable env : Env.
Variable request : TransferRequest.
Variable db : DB.

Let key := req_idempotencyKey request.
Let source := List.find (has_userId (req_fromUserId request)) (wallets db).
Let destination := List.find (has_userId (req_toUserId request)) (wallets db).

(** C1, as the code has it: a call that reaches the atomic unit locks the
    source wallet first and the destination wallet second, whatever their
    identifiers are; a wallet that is missing ends the unit before the next
    lock is taken. *)
Theorem processTransfer_locks_source_then_destination :
  Begin ∈ trace_of (WalletService.processTransfer env request db) →
  locks_of (trace_of (WalletService.processTransfer env request db))
  = match source with
    | None => []
    | Some fw =>
        wallet_id fw :: match destination with
                        | None => []
                        | Some tw => [wallet_id tw]
                        end
    end.
Proof.
  intros [Hpos Hfresh]%reaches_unit; [|set_solver]. subst source destination.
  rewrite processTransfer_fresh_key, unit_run by done. cbn.
  destruct (List.find (has_userId (req_fromUserId request)) (wallets db)) as [fw|];
    [|done].
  destruct (List.find (has_userId (req_toUserId request)) (wallets db)) as [tw|];
    [|done].
  repeat case_match; simplify_eq/=; done.
Qed.




End claims_sequential.

(** *** The primary key of the wallets

    The claims on balances assume that no two wallets share an identifier;
    the services keep it so. *)

Lemma createWallet_keeps_ids_unique env userId initialBalance db :
  NoDup (wallet_id <$> wallets db) →
  NoDup (wallet_id <$> wallets (db_of (WalletService.createWallet env userId
                                           initialBalance db))).
Proof.
  intros Hnd. unfold WalletService.createWallet, try_catch, Wallet_create.
  destruct (lt_hundredths initialBalance 0); [done|].
  destruct (fits (rounded initialBalance)); [|done]. cbn.
  destruct (existsb _ (wallets db)) eqn:Hex; [done|]. cbn.
  rewrite fmap_app. cbn. apply NoDup_app. split; [done|]. split; [|apply NoDup_singleton].
  intros id Hin ->%list_elem_of_singleton.
  apply list_elem_of_fmap in Hin as (w & Hid & Hw).
  apply not_true_iff_false in Hex. apply Hex, existsb_exists.
  exists w. split; [by apply list_elem_of_In|].
  unfold has_id. by rewrite (bool_decide_eq_true_2 _ (eq_sym Hid)).
Qed.

Lemma processTransfer_keeps_wallet_ids env request db :
  wallet_id <$> wallets (db_of (WalletService.processTransfer env request db))
  = wallet_id <$> wallets db.
Proof.
  destruct (decide (is_positive (req_amount request))) as [Hpos|Hle].
  2:{ by rewrite processTransfer_rejects_nonpositive. }
  destruct (transaction_logs db !! req_idempotencyKey request) as [l|] eqn:Hl.
  - destruct (log_status l) eqn:Hst.
    + by rewrite (processTransfer_pending_key _ _ _ l).
    + by rewrite (processTransfer_completed_key _ _ _ l).
    + by rewrite (processTransfer_failed_key _ _ _ l).
  - rewrite processTransfer_fresh_key, unit_run by done.
    destruct_unit; cbn -[add_balance]; try done. by rewrite !add_balance_ids.
Qed.

(** ** The transaction history *)

#[global] Instance newer_or_same_trans : Transitive newer_or_same.
Proof. unfold newer_or_same. intros a b c ? ?. lia. Qed.

#[global] Instance newer_or_same_total : Total newer_or_same.
Proof. unfold newer_or_same. intros a b. lia. Qed.

Lemma touches_spec walletId t :
  touches walletId t = true
  ↔ txn_fromWalletId t = Some walletId ∨ txn_toWalletId t = Some walletId.
Proof.
  unfold touches. rewrite orb_true_iff, !bool_decide_eq_true. done.
Qed.

Lemma StronglySorted_lookup {A} (R : A → A → Prop) (l : list A) :
  StronglySorted R l →
  ∀ i j a b, (i < j)%nat → l !! i = Some a → l !! j = Some b → R a b.
Proof.
  induction 1 as [|x l Hl IH Hx]; intros i j a b Hij Hi Hj; [done|].
  destruct j as [|j]; [lia|]. cbn in Hj. destruct i as [|i]; cbn in Hi.
  - injection Hi as <-. rewrite Forall_forall in Hx. apply Hx.
    by eapply list_elem_of_lookup_2.
  - apply (IH i j); [lia|done|done].
Qed.

(** C9: for an owner who has a wallet, the history resolves with a list of
    rows of the table of transfers that all have the owner's wallet as
    source or destination, at most 50 of them, each row created no earlier
    than the rows after it.  The rows it leaves out are rows of that wallet
    too, created no later than any row it returns, and there are none when
    fewer than 50 rows are returned: returned and left out together are the
    rows of the table whose source or destination is the wallet, each as
    many times as the table has it. *)
Theorem getTransactionHistory_recent_first (userId : string) (db : DB) (w : Wallet) :
  List.find (has_userId userId) (wallets db) = Some w →
  ∃ history omitted : list Transaction,
    WalletService.getTransactionHistory userId db
    = (db, [SelectWallet userId; SelectTransactions (wallet_id w)], Resolved history)
    ∧ (∀ t, t ∈ history →
         t ∈ transactions db
         ∧ (txn_fromWalletId t = Some (wallet_id w)
            ∨ txn_toWalletId t = Some (wallet_id w)))
    ∧ (∀ i j a b, (i < j)%nat → history !! i = Some a → history !! j = Some b →
         txn_createdAt b ≤ txn_createdAt a)
    ∧ (length history ≤ 50)%nat
    ∧ history ++ omitted
      ≡ₚ filter (λ t, txn_fromWalletId t = Some (wallet_id w)
                      ∨ txn_toWalletId t = Some (wallet_id w)) (transactions db)
    ∧ (∀ a b, a ∈ history → b ∈ omitted → txn_createdAt b ≤ txn_createdAt a)
    ∧ ((length history < 50)%nat → omitted = []).
Proof.
  intros Hw.
  set (matching := filter (λ t, touches (wallet_id w) t = true) (transactions db)).
  set (sorted := merge_sort newer_or_same matching).
  assert (Hsorted : StronglySorted newer_or_same (take 50 sorted ++ drop 50 sorted)).
  { rewrite take_drop. apply StronglySorted_merge_sort; apply _. }
  assert (Hin : ∀ t, t ∈ take 50 sorted →
                     touches (wallet_id w) t = true ∧ t ∈ transactions db).
  { intros t Ht%subseteq_take. unfold sorted in Ht.
    rewrite merge_sort_Permutation in Ht. by apply list_elem_of_filter in Ht. }
  exists (take 50 sorted), (drop 50 sorted). split; [|split; [|split; [|split; [|split; [|split]]]]].
  - run_async. by rewrite Hw.
  - intros t [Ht ?]%Hin. by apply touches_spec in Ht.
  - apply (StronglySorted_lookup newer_or_same).
    by apply StronglySorted_app_1_l in Hsorted.
  - rewrite length_take. lia.
  - rewrite take_drop. unfold sorted. rewrite merge_sort_Permutation. unfold matching.
    erewrite list_filter_iff; [done|]. intros t. apply touches_spec.
  - intros a b. by apply (StronglySorted_app_1_elem_of newer_or_same).
  - rewrite length_take. intros Hlt. apply drop_ge. lia.
Qed.

Lemma createPendingLog_run request db :
  IdempotencyService.createPendingLog (req_idempotencyKey request) request db
  = match transaction_logs db !! req_idempotencyKey request with
    | Some _ =>
        (db, [InsertLog (req_idempotencyKey request) false], Rejected conflict_insert)
    | None =>
        (with_pending request db, [InsertLog (req_idempotencyKey request) true],
         Resolved (pending_log request))
    end.
Proof.
  unfold IdempotencyService.createPendingLog, try_catch, TransactionLog_create.
  by destruct (transaction_logs db !! req_idempotencyKey request).
Qed.

Lemma markAsCompleted_run key result db :
  IdempotencyService.markAsCompleted key (res_transactionId result) result db
  = (with_logs (alter (mark_completed result) key (transaction_logs db)) db,
     [UpdateLog key TransactionLogStatus.COMPLETED], Resolved ()).
Proof. done. Qed.

Lemma markAsFailed_run key errorMessage db :
  IdempotencyService.markAsFailed key errorMessage db
  = (with_logs (alter (mark_failed errorMessage) key (transaction_logs db)) db,
     [UpdateLog key TransactionLogStatus.FAILED], Resolved ()).
Proof. done. Qed.

Lemma transaction_unit_run env request db :
  transaction (WalletService.processTransfer_unit env request) db
  = match WalletService.processTransfer_unit env request db with
    | (db1, t, Resolved result) => (db1, Begin :: t ++ [Commit], Resolved result)
    | (_, t, Rejected e) => (db, Begin :: t ++ [Rollback], Rejected e)
    end.
Proof. done. Qed.

(** One step of a call, stage by stage. *)
Lemma call_step_validating c db :
  call_stage c = Validating →
  call_step c db
  = if le_zero (req_amount (call_request c))
    then (db, advance c (Settled (Rejected invalid_amount)) [])
    else (db, advance c Checking []).
Proof. unfold call_step. by intros ->. Qed.

Lemma call_step_checking c db :
  call_stage c = Checking →
  call_step c db
  = (db, advance c
           match transaction_logs db !! key_of c with
           | Some l =>
               match log_status l with
               | TransactionLogStatus.COMPLETED =>
                   Settled (Resolved (log_responsePayload l))
               | TransactionLogStatus.PENDING => Settled (Rejected conflict_pending)
               | TransactionLogStatus.FAILED => Creating
               end
           | None => Creating
           end [SelectLog (key_of c)]).
Proof.
  unfold call_step, key_of. intros ->. cbn.
  destruct (transaction_logs db !! _) as [l|]; [|done]. by destruct (log_status l).
Qed.

Lemma call_step_creating c db :
  call_stage c = Creating →
  call_step c db
  = match transaction_logs db !! key_of c with
    | Some _ =>
        (db, advance c (Settled (Rejected conflict_insert)) [InsertLog (key_of c) false])
    | None =>
        (with_pending (call_request c) db, advance c Transacting [InsertLog (key_of c) true])
    end.
Proof.
  unfold call_step, key_of. intros ->. rewrite createPendingLog_run.
  by destruct (transaction_logs db !! _).
Qed.

Lemma call_step_transacting c db :
  call_stage c = Transacting →
  ∃ db1 t stage,
    call_step c db = (db1, advance c stage (Begin :: t))
    ∧ transaction_logs db1 = transaction_logs db
    ∧ ((∃ result, stage = Completing result) ∨ (∃ e, stage = Failing e)).
Proof.
  unfold call_step. intros ->.
  pose proof (unit_preserves_logs (call_env c) (call_request c) db) as Hlogs.
  destruct (call_engine c) as [|statement message]; cbn [transaction_under].
  - rewrite transaction_unit_run.
    destruct (WalletService.processTransfer_unit _ _ db) as [[db1 t] [result|e]];
      cbn in Hlogs.
    + exists db1, (t ++ [Commit]), (Completing result). eauto.
    + exists db, (t ++ [Rollback]), (Failing e). eauto.
  - unfold aborted.
    destruct (WalletService.processTransfer_unit _ _ db) as [[db1 t] [result|e]].
    + exists db, (take statement t ++ [Rollback]),
        (Failing (SequelizeDatabaseError message)). eauto.
    + destruct (statement <? length t)%nat.
      * exists db, (take statement t ++ [Rollback]),
          (Failing (SequelizeDatabaseError message)). eauto.
      * exists db, (t ++ [Rollback]), (Failing e). eauto.
Qed.

Lemma call_step_completing c db result :
  call_stage c = Completing result →
  call_step c db
  = (with_logs (alter (mark_completed result) (key_of c) (transaction_logs db)) db,
     advance c (Settled (Resolved (Some result)))
       [UpdateLog (key_of c) TransactionLogStatus.COMPLETED]).
Proof. unfold call_step. by intros ->. Qed.

Lemma call_step_failing c db error :
  call_stage c = Failing error →
  call_step c db
  = (with_logs (alter (mark_failed (error_message error)) (key_of c)
                  (transaction_logs db)) db,
     advance c (Settled (Rejected error))
       [UpdateLog (key_of c) TransactionLogStatus.FAILED]).
Proof. unfold call_step. by intros ->. Qed.

Lemma call_step_settled c db o :
  call_stage c = Settled o → call_step c db = (db, c).
Proof. unfold call_step. by intros ->. Qed.

(** Run alone, with an engine that lets its transaction proceed, a call is
    [processTransfer]. *)
Lemma call_alone env request db :
  call_steps 5 (start env request) db
  = let '(db1, t, o) := WalletService.processTransfer env request db in
    (db1, mkCall env request Proceeds (Settled o) t).
Proof.
  unfold call_steps. rewrite call_step_validating by done.
  cbn [start start_under call_request].
  destruct (decide (is_positive (req_amount request))) as [Hpos|Hle].
  2:{ rewrite processTransfer_rejects_nonpositive by done. cbn.
      by apply le_zero_true in Hle as ->. }
  rewrite (proj2 (le_zero_false _) Hpos), call_step_checking by done.
  unfold key_of.
  cbn [advance call_request call_stage call_env call_engine call_trace start
       start_under].
  destruct (transaction_logs db !! req_idempotencyKey request) as [l|] eqn:Hl.
  - destruct (log_status l) eqn:Hst.
    + by rewrite (processTransfer_pending_key _ _ _ l).
    + by rewrite (processTransfer_completed_key _ _ _ l).
    + rewrite (processTransfer_failed_key _ _ _ l) by done.
      rewrite call_step_creating by done. unfold key_of. cbn. by rewrite Hl.
  - rewrite processTransfer_fresh_key by done.
    pose proof (unit_preserves_logs env request (with_pending request db)) as Hlogs.
    rewrite call_step_creating by done. unfold key_of.
    cbn [advance call_request call_stage call_env call_engine call_trace start
         start_under].
    rewrite Hl.
    unfold call_step at 1.
    cbn [advance call_request call_stage call_env call_engine call_trace start
         start_under transaction_under].
    rewrite transaction_unit_run.
    destruct (WalletService.processTransfer_unit env request (with_pending request db))
      as [[db2 t] [result|error]]; cbn in Hlogs.
    + rewrite (call_step_completing _ _ result) by done.
      unfold advance, key_of; cbn. rewrite Hlogs, alter_insert_eq. cbn.
      by rewrite <- app_assoc.
    + rewrite (call_step_failing _ _ error) by done.
      unfold advance, key_of; cbn. rewrite alter_insert_eq. cbn.
      by rewrite <- app_assoc.
Qed.

Lemma key_of_advance c stage t : key_of (advance c stage t) = key_of c.
Proof. done. Qed.

Lemma created_advance c stage t :
  created_pending c → created_pending (advance c stage t).
Proof.
  unfold created_pending. rewrite key_of_advance. cbn. intros. apply elem_of_app. by left.
Qed.

Lemma executed_created key t : executed key t → InsertLog key true ∈ t.
Proof. intros [t' ->]. apply elem_of_cons. right. apply elem_of_cons. by left. Qed.

Lemma executed_app key t t' : executed key t → executed key (t ++ t').
Proof. intros [t0 ->]. by exists (t0 ++ t'). Qed.

(** A call that created the Pending record has passed the insert, and the
    ledger holds a record for its key. *)
Lemma call_inv_created db c :
  call_inv db c → created_pending c → is_Some (status_at db (key_of c)).
Proof.
  unfold call_inv, created_pending.
  destruct (call_stage c); intros Hinv Hin.
  - rewrite Hinv in Hin. no_such_event Hin.
  - rewrite Hinv in Hin. no_such_event Hin.
  - rewrite Hinv in Hin. no_such_event Hin.
  - destruct Hinv as [_ ->]. eauto.
  - destruct Hinv as [_ ->]. eauto.
  - destruct Hinv as [_ ->]. eauto.
  - destruct Hinv as [[_ ?]|[[Ht _]|[[Ht _]|[[Ht _]|[Ht _]]]]]; [done|..];
      rewrite Ht in Hin; no_such_event Hin.
Qed.

Lemma call_inv_frame db db1 c :
  transaction_logs db1 !! key_of c = transaction_logs db !! key_of c →
  call_inv db c → call_inv db1 c.
Proof.
  unfold call_inv, status_at. intros ->. done.
Qed.

Ltac split_all := split; [ | split; [ | split; [ | split ] ] ].

Lemma status_at_frame db db1 key :
  transaction_logs db1 = transaction_logs db → status_at db1 key = status_at db key.
Proof. unfold status_at. by intros ->. Qed.

(** One step of a call keeps its invariant, changes the ledger by at most
    one of the three effects, and only an accepted insert makes the call
    the creator of the Pending record. *)
Lemma call_step_inv db c db1 c1 :
  call_inv db c →
  call_step c db = (db1, c1) →
  call_inv db1 c1
  ∧ key_of c1 = key_of c
  ∧ step_effect c c1 db db1
  ∧ (created_pending c → created_pending c1)
  ∧ (created_pending c1 →
     created_pending c ∨ transaction_logs db !! key_of c = None).
Proof.
  intros Hinv Hstep.
  destruct (call_stage c) as [| | | |result|error|o] eqn:Hstage.
  - (* Validating *)
    rewrite call_step_validating in Hstep by done.
    unfold call_inv in Hinv. rewrite Hstage in Hinv.
    unfold created_pending, call_inv.
    destruct (le_zero (req_amount (call_request c))) eqn:Hamt; simplify_eq/=;
      rewrite Hinv; cbn; (split_all; [|done|by apply effect_none|done|by left]).
    + right. left. split; [done|]. split; [done|]. by apply le_zero_true.
    + done.
  - (* Checking *)
    rewrite call_step_checking in Hstep by done.
    unfold call_inv in Hinv. rewrite Hstage in Hinv.
    injection Hstep as <- <-.
    split_all; [|done|by apply effect_none|by apply created_advance|
                intros Hin; exfalso; unfold created_pending in Hin; cbn in Hin;
                rewrite Hinv in Hin; no_such_event Hin].
    unfold call_inv, status_at. rewrite key_of_advance. cbn. rewrite Hinv. cbn.
    destruct (transaction_logs db !! key_of c) as [l|] eqn:Hl; [|done].
    destruct (log_status l) eqn:Hst; cbn; [|by eauto 10|done].
    right. right. left. eauto.
  - (* Creating *)
    rewrite call_step_creating in Hstep by done.
    unfold call_inv in Hinv. rewrite Hstage in Hinv.
    destruct (transaction_logs db !! key_of c) as [l|] eqn:Hl;
      injection Hstep as <- <-.
    + split_all; [|done|by apply effect_none|by apply created_advance|
                  intros Hin; exfalso; unfold created_pending in Hin; cbn in Hin;
                  rewrite Hinv in Hin; no_such_event Hin].
      unfold call_inv, status_at. rewrite key_of_advance. cbn. rewrite Hinv, Hl. cbn.
      right. right. right. left. eauto.
    + assert (Hnew : created_pending (advance c Transacting [InsertLog (key_of c) true])).
      { unfold created_pending. rewrite key_of_advance. cbn. rewrite Hinv.
        apply elem_of_cons. right. apply elem_of_cons. by left. }
      split_all; [|done|by apply effect_create|by apply created_advance|by right].
      unfold call_inv, status_at. rewrite key_of_advance. cbn. rewrite Hinv. cbn.
      split; [done|]. fold (key_of c). by rewrite lookup_insert_eq.
  - (* Transacting *)
    destruct (call_step_transacting c db Hstage)
      as (db2 & t & stage & Heq & Hlogs & Hstage1).
    rewrite Heq in Hstep. injection Hstep as <- <-.
    unfold call_inv in Hinv. rewrite Hstage in Hinv. destruct Hinv as [Ht Hpending].
    assert (Hcreated : created_pending c).
    { unfold created_pending. rewrite Ht. apply elem_of_cons. right.
      apply elem_of_cons. by left. }
    split_all; [|done|by apply effect_none|by intros; apply created_advance|by left].
    destruct Hstage1 as [[result ->]|[e ->]];
      unfold call_inv; rewrite key_of_advance; cbn;
      rewrite Ht, (status_at_frame db db2) by done; (split; [by eexists|done]).
  - (* Completing *)
    rewrite (call_step_completing _ _ result) in Hstep by done.
    injection Hstep as <- <-.
    unfold call_inv in Hinv. rewrite Hstage in Hinv. destruct Hinv as [Ht Hpending].
    assert (Hcreated : created_pending c) by by apply executed_created.
    split_all; [|done|by eapply (effect_mark _ _ _ _ (mark_completed result)); eauto
                   |by intros; apply created_advance|by left].
    unfold call_inv. rewrite key_of_advance. cbn. left. split; [by apply executed_app|].
    unfold status_at in *. cbn. rewrite lookup_alter_eq.
    destruct (transaction_logs db !! key_of c); [by eauto|done].
  - (* Failing *)
    rewrite (call_step_failing _ _ error) in Hstep by done.
    injection Hstep as <- <-.
    unfold call_inv in Hinv. rewrite Hstage in Hinv. destruct Hinv as [Ht Hpending].
    assert (Hcreated : created_pending c) by by apply executed_created.
    split_all; [|done|by eapply (effect_mark _ _ _ _ (mark_failed _)); eauto
                   |by intros; apply created_advance|by left].
    unfold call_inv. rewrite key_of_advance. cbn. left. split; [by apply executed_app|].
    unfold status_at in *. cbn. rewrite lookup_alter_eq.
    destruct (transaction_logs db !! key_of c); [by eauto|done].
  - (* Settled *)
    rewrite (call_step_settled _ _ o) in Hstep by done.
    injection Hstep as <- <-.
    split_all; [done|done|by apply effect_none|done|by left].
Qed.

(** A call on a key that has no record yet has not got past its insert:
    its invariant does not depend on the database. *)
Lemma call_inv_absent db db1 c :
  call_inv db c → transaction_logs db !! key_of c = None → call_inv db1 c.
Proof.
  unfold call_inv, status_at. intros Hinv Hnone. rewrite Hnone in Hinv. cbn in Hinv.
  destruct (call_stage c); try done; try by destruct Hinv.
  destruct Hinv as [[_ []%is_Some_None]|[?|[(_&_&[]%is_Some_None)|
                   [(_&_&[]%is_Some_None)|(_&l&?&_)]]]]; [by right; left|done].
Qed.

(** A call that did not create the Pending record of its key is not
    disturbed when that record is marked. *)
Lemma call_inv_marked db db1 c f :
  call_inv db c →
  status_at db (key_of c) = Some TransactionLogStatus.PENDING →
  ¬ created_pending c →
  transaction_logs db1 !! key_of c = f <$> transaction_logs db !! key_of c →
  call_inv db1 c.
Proof.
  unfold call_inv, status_at, created_pending. intros Hinv Hpending Hnot Hlogs.
  rewrite Hlogs.
  assert (Hsome : is_Some (log_status <$> (f <$> transaction_logs db !! key_of c))).
  { destruct (transaction_logs db !! key_of c); [by eauto|done]. }
  destruct (call_stage c); try done.
  - exfalso. apply Hnot. destruct Hinv as [-> _].
    apply elem_of_cons. right. apply elem_of_cons. by left.
  - exfalso. apply Hnot. destruct Hinv as [? _]. by apply executed_created.
  - exfalso. apply Hnot. destruct Hinv as [? _]. by apply executed_created.
  - destruct Hinv as [[? _]|[?|[(?&?&_)|[(?&?&_)|(_&l&Hl&Hst&_)]]]].
    + exfalso. apply Hnot. by apply executed_created.
    + by right; left.
    + by right; right; left.
    + by right; right; right; left.
    + rewrite Hl in Hpending. cbn in Hpending. congruence.
Qed.

Lemma sched_step_inv cfg i : sys_inv cfg → sys_inv (sched_step cfg i).
Proof.
  intros [Hcalls Huniq]. unfold sched_step.
  destruct (cfg_calls cfg !! i) as [c|] eqn:Hc; [|done].
  destruct (call_step c (cfg_db cfg)) as [db1 c1] eqn:Hstep.
  destruct (call_step_inv _ _ _ _ (Hcalls i c Hc) Hstep)
    as (Hinv1 & Hkey & Heffect & Hmono & Hnew).
  pose proof (lookup_lt_Some _ _ _ Hc) as Hlt.
  split; cbn.
  - intros j cj Hj. destruct (decide (j = i)) as [->|Hne].
    { rewrite list_lookup_insert_eq in Hj by done. by simplify_eq. }
    rewrite list_lookup_insert_ne in Hj by done.
    pose proof (Hcalls j cj Hj) as Hinvj.
    destruct Heffect as [Hsame|Hnone Hins Hnew1|f Hcreated Hpending Halter Hf].
    + eapply call_inv_frame; [|done]. by rewrite Hsame.
    + destruct (decide (key_of cj = key_of c)) as [Heq|Hneq].
      * eapply call_inv_absent; [done|]. by rewrite Heq.
      * eapply call_inv_frame; [|done]. by rewrite Hins, lookup_insert_ne.
    + destruct (decide (key_of cj = key_of c)) as [Heq|Hneq].
      * eapply (call_inv_marked _ _ _ f); [done|by rewrite Heq| |].
        -- intros Hcreatedj. apply Hne. by eapply (Huniq j i).
        -- by rewrite Halter, Heq, lookup_alter_eq.
      * eapply call_inv_frame; [|done]. by rewrite Halter, lookup_alter_ne.
  - assert (Hfresh : ∀ j cj, cfg_calls cfg !! j = Some cj → key_of cj = key_of c →
                             created_pending cj → created_pending c1 → j = i).
    { intros j cj Hj Heq Hcj [Hcreated|Hnone]%Hnew; [by eapply (Huniq j i)|].
      apply (call_inv_created _ _ (Hcalls j cj Hj)) in Hcj.
      unfold status_at in Hcj. rewrite Heq, Hnone in Hcj. by destruct Hcj. }
    intros a b ca cb Ha Hb Heq Hca Hcb.
    destruct (decide (a = i)) as [->|Hai], (decide (b = i)) as [->|Hbi]; [done|..].
    + rewrite list_lookup_insert_eq in Ha by done.
      rewrite list_lookup_insert_ne in Hb by done. simplify_eq.
      symmetry. eapply Hfresh; [done| |done|done]. congruence.
    + rewrite list_lookup_insert_ne in Ha by done.
      rewrite list_lookup_insert_eq in Hb by done. simplify_eq.
      eapply Hfresh; [done| |done|done]. congruence.
    + rewrite list_lookup_insert_ne in Ha by done.
      rewrite list_lookup_insert_ne in Hb by done. by eapply Huniq.
Qed.

Lemma run_inv schedule cfg : sys_inv cfg → sys_inv (run schedule cfg).
Proof.
  unfold run. revert cfg. induction schedule as [|i schedule IH]; intros cfg Hinv; [done|].
  cbn. by apply IH, sched_step_inv.
Qed.

Lemma started_inv cfg : Forall started (cfg_calls cfg) → sys_inv cfg.
Proof.
  intros Hall. split.
  - intros i c Hc. eapply Forall_lookup_1 in Hall as [Hstage Htrace]; [|done].
    unfold call_inv. by rewrite Hstage.
  - intros i j ci cj Hi Hj _ Hci _.
    eapply Forall_lookup_1 in Hall as [_ Htrace]; [|exact Hi].
    unfold created_pending in Hci. rewrite Htrace in Hci. by apply elem_of_nil in Hci.
Qed.




Section one_key.
Variable key : string.
Variable cfg0 : Config.
Variable schedule : list nat.

Hypothesis Hstarted : Forall started (cfg_calls cfg0).
Hypothesis Hfresh : transaction_logs (cfg_db cfg0) !! key = None.

Let cfg := run schedule cfg0.


End one_key.

Lemma sched_step_moves cfg i k :
  sys_inv cfg →
  transaction_logs (cfg_db (sched_step cfg i)) !! k = transaction_logs (cfg_db cfg) !! k
  ∨ ledger_move (status_at (cfg_db cfg) k) (status_at (cfg_db (sched_step cfg i)) k).
Proof.
  intros [Hcalls _]. unfold sched_step.
  destruct (cfg_calls cfg !! i) as [c|] eqn:Hc; [|by left].
  destruct (call_step c (cfg_db cfg)) as [db1 c1] eqn:Hstep.
  destruct (call_step_inv _ _ _ _ (Hcalls i c Hc) Hstep) as (_ & _ & Heffect & _).
  cbn. destruct Heffect as [Hsame|Hnone Hins _|f _ Hpending Halter Hf].
  - left. by rewrite Hsame.
  - destruct (decide (key_of c = k)) as [<-|Hne].
    + right. unfold status_at. rewrite Hnone, Hins, lookup_insert_eq. constructor.
    + left. by rewrite Hins, lookup_insert_ne.
  - destruct (decide (key_of c = k)) as [<-|Hne].
    + right. rewrite Hpending. unfold status_at in *.
      rewrite Halter, lookup_alter_eq.
      destruct (transaction_logs (cfg_db cfg) !! key_of c) as [l|]; [|done]. cbn.
      destruct (Hf l) as [-> | ->]; constructor.
    + left. by rewrite Halter, lookup_alter_ne.
Qed.

Lemma run_keeps_completed schedule cfg k l :
  sys_inv cfg →
  transaction_logs (cfg_db cfg) !! k = Some l →
  log_status l = TransactionLogStatus.COMPLETED →
  transaction_logs (cfg_db (run schedule cfg)) !! k = Some l.
Proof.
  unfold run. revert cfg.
  induction schedule as [|i schedule IH]; intros cfg Hinv Hl Hst; [done|].
  cbn. apply IH; [by apply sched_step_inv| |done].
  destruct (sched_step_moves cfg i k Hinv) as [->|Hmove]; [done|].
  unfold status_at in Hmove. rewrite Hl in Hmove. cbn in Hmove. rewrite Hst in Hmove.
  inversion Hmove.
Qed.

Section ledger.
Variable cfg0 : Config.
Variable schedule : list nat.

Hypothesis Hstarted : Forall started (cfg_calls cfg0).

Let cfg := run schedule cfg0.

(** C5: in a system of concurrent calls, started on any database, a step
    leaves the record of a key as it is or moves it None → Pending,
    Pending → Completed or Pending → Failed; a call about to mark its
    record Completed or Failed finds it Pending; and a Completed record,
    with its stored response, stays as it is whatever runs afterwards. *)
Theorem ledger_state_machine :
  (∀ i k,
     transaction_logs (cfg_db (sched_step cfg i)) !! k
     = transaction_logs (cfg_db cfg) !! k
     ∨ ledger_move (status_at (cfg_db cfg) k)
         (status_at (cfg_db (sched_step cfg i)) k))
  ∧ (∀ i c,
       cfg_calls cfg !! i = Some c →
       (∃ result, call_stage c = Completing result)
       ∨ (∃ error, call_stage c = Failing error) →
       status_at (cfg_db cfg) (key_of c) = Some TransactionLogStatus.PENDING)
  ∧ (∀ k l more,
       transaction_logs (cfg_db cfg) !! k = Some l →
       log_status l = TransactionLogStatus.COMPLETED →
       transaction_logs (cfg_db (run more cfg)) !! k = Some l).
Proof.
  pose proof (run_inv schedule cfg0 (started_inv _ Hstarted)) as Hinv.
  fold cfg in Hinv. split; [|split].
  - intros i k. by apply sched_step_moves.
  - intros i c Hc Hstage. destruct Hinv as [Hcalls _].
    pose proof (Hcalls i c Hc) as Hinvc. unfold call_inv in Hinvc.
    by destruct Hstage as [[result Hs]|[error Hs]]; rewrite Hs in Hinvc;
      destruct Hinvc.
  - intros k l more. by apply run_keeps_completed.
Qed.

End ledger.

Ltac by_computation :=
  match goal with
  | |- ?P => apply (@bool_decide_unpack P _); vm_compute; exact I
  end.

(** ** The scenarios of the test suite *)

(** A transfer of 200 from 1000.00 to 500.00. *)
Example scenario1 :
  let r := WalletService.processTransfer env1 req1 db_two in
  outcome_of r = Resolved (Some (mkTransferResponse "t-1" "w-1" "w-2" (whole 200)
                                   "COMPLETED" "TXN-3F2B8C1A"
                                   "Transfer completed successfully"))
  ∧ balance_of "sender" (db_of r) = Some 80000
  ∧ balance_of "receiver" (db_of r) = Some 70000
  ∧ trace_of r = [SelectLog "K1"; InsertLog "K1" true; Begin;
                  SelectWalletForUpdate "sender" (Some "w-1");
                  SelectWalletForUpdate "receiver" (Some "w-2");
                  InsertTransaction "t-1" true;
                  UpdateWalletBalance "w-1" (whole (-200)) true;
                  UpdateWalletBalance "w-2" (whole 200) true;
                  UpdateTransaction "t-1" TransactionStatus.COMPLETED; Commit;
                  UpdateLog "K1" TransactionLogStatus.COMPLETED].
Proof. vm_compute. repeat split. Qed.

(** The same request again: the same response, the balances as they were. *)
Example scenario_double_tap :
  let r := WalletService.processTransfer env2 req1 db_done in
  outcome_of r = Resolved (Some response1)
  ∧ balance_of "sender" (db_of r) = Some 80000
  ∧ balance_of "receiver" (db_of r) = Some 70000.
Proof. by vm_compute. Qed.

(** More than the balance: rejected, the balances as they were. *)
Example scenario_insufficient :
  let r := WalletService.processTransfer env1 req_too_much db_two in
  outcome_of r = Rejected insufficient
  ∧ balance_of "sender" (db_of r) = Some 100000
  ∧ balance_of "receiver" (db_of r) = Some 50000.
Proof. by vm_compute. Qed.

(** Two transfers of 600 out of 1000.00, side by side: the first commits,
    the engine aborts the second, whose key is left Failed with the
    engine's message; the balances add up to what they were. *)
Example scenario_two_spenders :
  let cfg := run side_by_side cfg_two_spenders in
  call_stage <$> cfg_calls cfg
  = [Settled (Resolved (Some (mkTransferResponse "t-1" "w-1" "w-2" (whole 600)
                                "COMPLETED" "TXN-3F2B8C1A"
                                "Transfer completed successfully")));
     Settled (Rejected (SequelizeDatabaseError serialization_failure))]
  ∧ balance_of "sender" (cfg_db cfg) = Some 40000
  ∧ balance_of "receiver" (cfg_db cfg) = Some 110000
  ∧ (log_errorMessage <$> transaction_logs (cfg_db cfg) !! "K4")
    = Some (Some serialization_failure).
Proof. by vm_compute. Qed.

(** Values that do not fit their column: a wallet cannot be created with
    10^13, whether the owner has one or not; a credit that would take a
    balance to 10^13 is refused after the transfer row is in and the debit
    done, and all of it is rolled back. *)
Example scenario_overflow :
  outcome_of (WalletService.createWallet env1 "third" ten_to_13 db_two)
  = Rejected numeric_overflow
  ∧ outcome_of (WalletService.createWallet env1 "sender" ten_to_13 db_two)
    = Rejected numeric_overflow
  ∧ balance_of "rich" db_rich = Some (10 ^ 15 - 1)
  ∧ let r := WalletService.processTransfer env1 req_to_rich db_rich in
    outcome_of r = Rejected numeric_overflow
    ∧ wallets (db_of r) = wallets db_rich
    ∧ transactions (db_of r) = transactions db_rich
    ∧ trace_of r = [SelectLog "K9"; InsertLog "K9" true; Begin;
                    SelectWalletForUpdate "sender" (Some "w-1");
                    SelectWalletForUpdate "rich" (Some "w-9");
                    InsertTransaction "t-1" true;
                    UpdateWalletBalance "w-1" (mkNumber (-1) 2) true;
                    UpdateWalletBalance "w-9" (mkNumber 1 2) false;
                    Rollback; UpdateLog "K9" TransactionLogStatus.FAILED].
Proof. by vm_compute. Qed.

(** C1, the claim as stated fails: the transfer from [sender] to [receiver]
    locks w-1 and then w-2, the transfer back locks w-2 and then w-1, so the
    order follows the direction and is not ascending in the identifier. *)
Lemma locks_follow_direction :
  let forth := WalletService.processTransfer env1 req1 db_two in
  let back := WalletService.processTransfer env1 req_back db_two in
  Begin ∈ trace_of forth ∧ Begin ∈ trace_of back
  ∧ locks_of (trace_of forth) = ["w-1"; "w-2"]
  ∧ locks_of (trace_of back) = ["w-2"; "w-1"]
  ∧ ¬ Sorted String.le (locks_of (trace_of back)).
Proof.
  cbn zeta. split; [by_computation|]. split; [by_computation|].
  split; [by vm_compute|]. split; [by vm_compute|].
  intros Hsorted. vm_compute in Hsorted.
  apply Sorted_inv in Hsorted as [_ Hhd]. apply HdRel_inv in Hhd.
  vm_compute in Hhd. exact Hhd.
Qed.

(** C2, the code at the failing input: K2 is Failed in the ledger after a
    transfer the balance did not cover; a second call with K2, for an amount
    the balance covers, is rejected with 409 by the insert of the Pending
    record, and nothing changes. *)
Theorem retry_of_failed_key_is_refused :
  status_at db_failed "K2" = Some TransactionLogStatus.FAILED
  ∧ balance_of "sender" db_failed = Some 100000
  ∧ WalletService.processTransfer env2 req_retry db_failed
    = (db_failed, [SelectLog "K2"; InsertLog "K2" false], Rejected conflict_insert).
Proof.
  split; [by vm_compute|]. split; [by vm_compute|].
  destruct (transaction_logs db_failed !! "K2") as [l|] eqn:Hl; [|by vm_compute in Hl].
  apply (processTransfer_failed_key env2 req_retry db_failed l); [by vm_compute|done|].
  vm_compute in Hl. by injection Hl as <-.
Qed.

(** The two marks are plain updates by key, with no condition on the status
    of the row: applied by hand to the Completed record of K1, [markAsFailed]
    turns it Failed.  [processTransfer] never does so: it marks only the
    record it has itself inserted as Pending ([call_inv]). *)
Example markAsFailed_is_unconditional :
  status_at db_done "K1" = Some TransactionLogStatus.COMPLETED
  ∧ status_at (db_of (IdempotencyService.markAsFailed "K1" "late" db_done)) "K1"
    = Some TransactionLogStatus.FAILED.
Proof. by vm_compute. Qed.




(** ** The theorems at work on the concrete runs *)

Lemma processTransfer_locks_source_then_destination_witness :
  Begin ∈ trace_of (WalletService.processTransfer env1 req_back db_two)
  ∧ locks_of (trace_of (WalletService.processTransfer env1 req_back db_two))
    = ["w-2"; "w-1"].
Proof.
  assert (H : Begin ∈ trace_of (WalletService.processTransfer env1 req_back db_two))
    by by_computation.
  split; [exact H|].
  rewrite (processTransfer_locks_source_then_destination env1 req_back db_two H).
  vm_compute. reflexivity.
Defined.

Lemma processTransfer_replays_completed_witness :
  is_positive (req_amount req_other_amount)
  ∧ transaction_logs db_done !! req_idempotencyKey req_other_amount
    = Some (completed_log req1 response1)
  ∧ log_status (completed_log req1 response1) = TransactionLogStatus.COMPLETED
  ∧ outcome_of (WalletService.processTransfer env2 req_other_amount db_done)
    = Resolved (Some response1)
  ∧ trace_of (WalletService.processTransfer env2 req_other_amount db_done)
    = [SelectLog "K1"]
  ∧ db_of (WalletService.processTransfer env2 req_other_amount db_done) = db_done.
Proof.
  assert (H1 : is_positive (req_amount req_other_amount)) by (vm_compute; reflexivity).
  assert (H2 : transaction_logs db_done !! req_idempotencyKey req_other_amount
               = Some (completed_log req1 response1)) by (vm_compute; reflexivity).
  assert (H3 : log_status (completed_log req1 response1)
               = TransactionLogStatus.COMPLETED) by reflexivity.
  split; [exact H1|]. split; [exact H2|]. split; [exact H3|].
  exact (processTransfer_replays_completed env2 req_other_amount db_done
           (completed_log req1 response1) H1 H2 H3).
Defined.



Lemma processTransfer_validates_amount_first_witness :
  ¬ is_positive (req_amount req_zero)
  ∧ outcome_of (WalletService.processTransfer env2 req_zero db_done)
    = Rejected invalid_amount
  ∧ trace_of (WalletService.processTransfer env2 req_zero db_done) = []
  ∧ db_of (WalletService.processTransfer env2 req_zero db_done) = db_done.
Proof.
  assert (H : ¬ is_positive (req_amount req_zero)) by (vm_compute; discriminate).
  split; [exact H|].
  exact (processTransfer_validates_amount_first env2 req_zero db_done H).
Defined.


(** The history of [sender] after the three transfers: the third transfer
    and then the first, the newer before the older though the table holds
    the older before the newer; the second, between [receiver] and [third],
    is not in it. *)
Lemma getTransactionHistory_recent_first_witness :
  List.find (has_userId "sender") (wallets db_three) = Some (mkWallet "w-1" "sender" 85000)
  ∧ txn_id <$> transactions db_three = ["t-1"; "t-2"; "t-3"]
  ∧ ∃ history omitted : list Transaction,
      WalletService.getTransactionHistory "sender" db_three
      = (db_three, [SelectWallet "sender"; SelectTransactions "w-1"], Resolved history)
      ∧ txn_id <$> history = ["t-3"; "t-1"]
      ∧ txn_createdAt <$> history = [3; 1]
      ∧ omitted = []
      ∧ (∀ t, t ∈ history →
           t ∈ transactions db_three
           ∧ (txn_fromWalletId t = Some "w-1" ∨ txn_toWalletId t = Some "w-1"))
      ∧ (∀ i j a b, (i < j)%nat → history !! i = Some a → history !! j = Some b →
           txn_createdAt b ≤ txn_createdAt a)
      ∧ history ++ omitted
        ≡ₚ filter (λ t, txn_fromWalletId t = Some "w-1" ∨ txn_toWalletId t = Some "w-1")
             (transactions db_three).
Proof.
  assert (H : List.find (has_userId "sender") (wallets db_three)
              = Some (mkWallet "w-1" "sender" 85000)) by (vm_compute; reflexivity).
  split; [exact H|]. split; [vm_compute; reflexivity|].
  destruct (getTransactionHistory_recent_first "sender" db_three _ H)
    as (history & omitted & Hrun & Hin & Hsorted & Hlen & Hperm & _ & Hall).
  exists history, omitted.
  assert (Hhistory : Resolved history
                     = outcome_of (WalletService.getTransactionHistory "sender" db_three))
    by (rewrite Hrun; reflexivity).
  vm_compute in Hhistory. injection Hhistory as Hhistory.
  assert (Homitted : omitted = []) by (apply Hall; rewrite Hhistory; vm_compute; lia).
  split; [exact Hrun|]. split; [rewrite Hhistory; reflexivity|].
  split; [rewrite Hhistory; reflexivity|]. split; [exact Homitted|].
  split; [exact Hin|]. split; [exact Hsorted|exact Hperm].
Defined.


Lemma ledger_state_machine_witness :
  Forall started (cfg_calls cfg_double_tap)
  ∧ let cfg := run racing_inserts cfg_double_tap in
    (∀ i k,
       transaction_logs (cfg_db (sched_step cfg i)) !! k
       = transaction_logs (cfg_db cfg) !! k
       ∨ ledger_move (status_at (cfg_db cfg) k)
           (status_at (cfg_db (sched_step cfg i)) k))
    ∧ (∀ i c,
         cfg_calls cfg !! i = Some c →
         (∃ result, call_stage c = Completing result)
         ∨ (∃ error, call_stage c = Failing error) →
         status_at (cfg_db cfg) (key_of c) = Some TransactionLogStatus.PENDING)
    ∧ (∀ k l more,
         transaction_logs (cfg_db cfg) !! k = Some l →
         log_status l = TransactionLogStatus.COMPLETED →
         transaction_logs (cfg_db (run more cfg)) !! k = Some l).
Proof.
  assert (H1 : Forall started (cfg_calls cfg_double_tap))
    by (repeat constructor).
  split; [exact H1|].
  exact (ledger_state_machine cfg_double_tap racing_inserts H1).
Defined.

(** In [racing_inserts] the first call is the creator and completes; the
    second is refused at the insert. *)
Example racing_inserts_outcome :
  let cfg := run racing_inserts cfg_double_tap in
  call_stage <$> cfg_calls cfg
  = [Settled (Resolved (Some response1)); Settled (Rejected conflict_insert)]
  ∧ balance_of "sender" (cfg_db cfg) = Some 80000
  ∧ balance_of "receiver" (cfg_db cfg) = Some 70000.
Proof. by vm_compute. Qed.

(** * Further properties of the services *)

(** ** The wallets across a transfer *)

Lemma add_balance_userIds j d (ws : list Wallet) :
  wallet_userId <$> (add_balance j d <$> ws) = wallet_userId <$> ws.
Proof.
  rewrite <- list_fmap_compose. apply list_fmap_ext. intros _ w _. cbn.
  unfold add_balance. by destruct (has_id j w).
Qed.

Lemma find_userId_add_balance u j d (ws : list Wallet) :
  List.find (has_userId u) (add_balance j d <$> ws)
  = add_balance j d <$> List.find (has_userId u) ws.
Proof.
  apply find_fmap_invariant. intros w. unfold has_userId, add_balance.
  by destruct (has_id j w).
Qed.

Lemma same_id_same_row (ws : list Wallet) (a b : Wallet) :
  NoDup (wallet_id <$> ws) → a ∈ ws → b ∈ ws → wallet_id a = wallet_id b → a = b.
Proof.
  intros Hnd Ha Hb Heq.
  pose proof (find_by_own_id ws a Hnd Ha) as Hfa.
  pose proof (find_by_own_id ws b Hnd Hb) as Hfb.
  rewrite Heq in Hfa. congruence.
Qed.

(** The balance of the destination when the credit reaches it: what it was,
    or what the debit left when source and destination are one wallet. *)
Lemma debited_destination (ws : list Wallet) (fw tw : Wallet) (x : JsNumber) :
  wallets_ok ws → fw ∈ ws → tw ∈ ws → covers (wallet_balance fw) x →
  0 ≤ wallet_balance (add_balance (wallet_id fw) (num_opp x) tw).
Proof.
  intros (Hids & _ & Hnn) Hfw Htw Hle. rewrite Forall_forall in Hnn.
  destruct (decide (wallet_id tw = wallet_id fw)) as [Heq|Hne].
  - rewrite add_balance_same by done.
    rewrite (same_id_same_row ws tw fw Hids Htw Hfw Heq), add_rounded_debit by done.
    pose proof (debit_covered _ _ Hle). lia.
  - rewrite add_balance_other by done. by apply Hnn.
Qed.

(** The wallets after the debit of [fw] and the credit of [tw]. *)
Lemma moved_wallets_ok (ws : list Wallet) (fw tw : Wallet) (x : JsNumber) :
  wallets_ok ws → fw ∈ ws → tw ∈ ws → is_positive x → covers (wallet_balance fw) x →
  wallets_ok (add_balance (wallet_id tw) x
                <$> (add_balance (wallet_id fw) (num_opp x) <$> ws)).
Proof.
  intros Hok Hfw Htw Hpos Hle. pose proof Hok as (Hids & Husers & Hnn).
  split; [|split].
  - by rewrite !add_balance_ids.
  - by rewrite !add_balance_userIds.
  - rewrite <- list_fmap_compose. apply Forall_fmap, Forall_forall. intros w Hw. cbn.
    assert (Hdebit : 0 ≤ wallet_balance (add_balance (wallet_id fw) (num_opp x) w))
      by by apply (debited_destination ws).
    destruct (decide (wallet_id w = wallet_id tw)) as [Heq|Hne].
    + rewrite add_balance_same by by rewrite add_balance_id.
      rewrite add_rounded_credit by done.
      destruct (debit_credit x Hpos) as (? & ? & _). lia.
    + by rewrite (add_balance_other (wallet_id tw)) by by rewrite add_balance_id.
Qed.

Lemma moved_total (ws : list Wallet) (fw tw : Wallet) (x : JsNumber) :
  wallets_ok ws → fw ∈ ws → tw ∈ ws → is_positive x → covers (wallet_balance fw) x →
  total_balance (add_balance (wallet_id tw) x
                   <$> (add_balance (wallet_id fw) (num_opp x) <$> ws))
  = total_balance ws + credit x - debit x.
Proof.
  intros Hok Hfw Htw Hpos Hle. pose proof Hok as (Hids & _ & _).
  pose proof (debited_destination ws fw tw x Hok Hfw Htw Hle) as Hnn.
  set (o := num_opp x) in *.
  rewrite <- (add_balance_id (wallet_id fw) o tw).
  rewrite (total_add_balance x _ (add_balance (wallet_id fw) o tw));
    [|by rewrite add_balance_ids|by apply list_elem_of_fmap_2].
  rewrite (total_add_balance o _ fw) by done.
  unfold o. rewrite add_rounded_debit, add_rounded_credit by done. lia.
Qed.

Lemma wallets_move_ok (x : JsNumber) (ws ws' : list Wallet) :
  wallets_ok ws → wallets_move x ws ws' →
  wallets_ok ws'
  ∧ total_balance ws ≤ total_balance ws' ≤ total_balance ws + 1
  ∧ (¬ half_hundredth x → total_balance ws' = total_balance ws).
Proof.
  intros Hok [->|(fw & tw & Hfw & Htw & Hpos & Hle & ->)].
  { split; [done|]. split; [lia|done]. }
  split; [by apply moved_wallets_ok|].
  rewrite moved_total by done.
  destruct (debit_credit x Hpos) as (_ & Hdc & Hcd & Hhalf).
  split; [lia|]. intros Hnot.
  assert (credit x ≠ debit x + 1) by (intros Heq; by apply Hnot, Hhalf). lia.
Qed.

(** What the atomic unit does to the wallets when it resolves: one debit
    and one credit of the amount, which is positive and which the source
    balance covers. *)
Lemma unit_wallets env request db db2 t result :
  WalletService.processTransfer_unit env request db = (db2, t, Resolved result) →
  ∃ fw tw,
    fw ∈ wallets db ∧ tw ∈ wallets db
    ∧ is_positive (req_amount request)
    ∧ covers (wallet_balance fw) (req_amount request)
    ∧ wallets db2
      = add_balance (wallet_id tw) (req_amount request)
          <$> (add_balance (wallet_id fw) (num_opp (req_amount request)) <$> wallets db).
Proof.
  rewrite unit_run. destruct_unit; try done. intros [= <- _ _].
  match goal with
  | Hf : List.find (has_userId (req_fromUserId _)) _ = Some ?fw,
    Ht : List.find (has_userId (req_toUserId _)) _ = Some ?tw,
    Hc : hundredths_lt _ _ = false |- _ =>
      exists fw, tw; apply find_elem_of in Hf as [Hf _];
      apply find_elem_of in Ht as [Ht _]; apply hundredths_lt_false in Hc
  end.
  split; [done|]. split; [done|]. split; [|done].
  match goal with H : lt_hundredths _ 1 = false |- _ => rename H into Hmin end.
  unfold lt_hundredths in Hmin. apply Z.ltb_ge in Hmin. unfold is_positive.
  pose proof (pow10_pos (num_scale (req_amount request))). lia.
Qed.

Lemma processTransfer_wallets env request db :
  wallets_move (req_amount request) (wallets db)
    (wallets (db_of (WalletService.processTransfer env request db))).
Proof.
  destruct (decide (is_positive (req_amount request))) as [Hpos|Hle].
  2:{ rewrite processTransfer_rejects_nonpositive by done. by left. }
  destruct (transaction_logs db !! req_idempotencyKey request) as [l|] eqn:Hl.
  - destruct (log_status l) eqn:Hst.
    + rewrite (processTransfer_pending_key _ _ _ l) by done. by left.
    + rewrite (processTransfer_completed_key _ _ _ l) by done. by left.
    + rewrite (processTransfer_failed_key _ _ _ l) by done. by left.
  - rewrite processTransfer_fresh_key by done.
    destruct (WalletService.processTransfer_unit env request (with_pending request db))
      as [[db2 t] [result|error]] eqn:Hunit; [|by left].
    cbn. apply unit_wallets in Hunit as (fw & tw & ? & ? & ? & ? & ->).
    right. by exists fw, tw.
Qed.

Lemma call_step_wallets c db :
  wallets_move (req_amount (call_request c)) (wallets db) (wallets (call_step c db).1).
Proof.
  destruct (call_stage c) as [| | | |result|error|o] eqn:Hstage.
  - rewrite call_step_validating by done. by destruct (le_zero _); left.
  - rewrite call_step_checking by done. by left.
  - rewrite call_step_creating by done. by destruct (_ !! _); left.
  - unfold call_step. rewrite Hstage.
    destruct (call_engine c) as [|statement message]; cbn [transaction_under].
    + rewrite transaction_unit_run.
      destruct (WalletService.processTransfer_unit _ _ db)
        as [[db2 t] [result|e]] eqn:Hunit; [|by left].
      cbn. apply unit_wallets in Hunit as (fw & tw & ? & ? & ? & ? & ->).
      right. by exists fw, tw.
    + unfold aborted.
      destruct (WalletService.processTransfer_unit _ _ db) as [[db2 t] [result|e]];
        [by left|]. by destruct (statement <? length t)%nat; left.
  - rewrite (call_step_completing _ _ result) by done. by left.
  - rewrite (call_step_failing _ _ error) by done. by left.
  - rewrite (call_step_settled _ _ o) by done. by left.
Qed.

Lemma call_step_request c db : call_request (call_step c db).2 = call_request c.
Proof.
  destruct (call_stage c) as [| | | |result|error|o] eqn:Hstage.
  - rewrite call_step_validating by done. by destruct (le_zero _).
  - by rewrite call_step_checking.
  - rewrite call_step_creating by done. by destruct (_ !! _).
  - destruct (call_step_transacting c db Hstage) as (db1 & t & stage & -> & _). done.
  - by rewrite (call_step_completing _ _ result).
  - by rewrite (call_step_failing _ _ error).
  - by rewrite (call_step_settled _ _ o).
Qed.

(** A step of the system keeps the requests of the calls, and moves the
    wallets as the step of one of them does. *)
Lemma sched_step_wallets cfg i :
  call_request <$> cfg_calls (sched_step cfg i) = call_request <$> cfg_calls cfg
  ∧ (wallets (cfg_db (sched_step cfg i)) = wallets (cfg_db cfg)
     ∨ ∃ c, c ∈ cfg_calls cfg
            ∧ wallets_move (req_amount (call_request c)) (wallets (cfg_db cfg))
                (wallets (cfg_db (sched_step cfg i)))).
Proof.
  unfold sched_step. destruct (cfg_calls cfg !! i) as [c|] eqn:Hc; [|by split; [|left]].
  pose proof (call_step_wallets c (cfg_db cfg)) as Hmove.
  pose proof (call_step_request c (cfg_db cfg)) as Hreq.
  destruct (call_step c (cfg_db cfg)) as [db1 c1]. cbn in *. split.
  - rewrite list_fmap_insert, Hreq. apply list_insert_id.
    by rewrite list_lookup_fmap, Hc.
  - right. exists c. split; [by eapply list_elem_of_lookup_2|done].
Qed.

(** X1: a call of [processTransfer], whatever its outcome, keeps the table of
    wallets well formed (identifiers and owners unique, no balance below
    zero).  It never lowers the sum of all balances and raises it by at most
    one hundredth: the sum is what it was unless the call commits a transfer
    of an amount that lies half a hundredth off (100.005, say), and then it
    has grown by exactly one hundredth.  A call that does not commit leaves
    every wallet as it was. *)
Theorem processTransfer_keeps_wallets env request db :
  wallets_ok (wallets db) →
  let r := WalletService.processTransfer env request db in
  wallets_ok (wallets (db_of r))
  ∧ total_balance (wallets db) ≤ total_balance (wallets (db_of r))
    ≤ total_balance (wallets db) + 1
  ∧ (¬ half_hundredth (req_amount request) →
     total_balance (wallets (db_of r)) = total_balance (wallets db))
  ∧ (Commit ∈ trace_of r → half_hundredth (req_amount request) →
     total_balance (wallets (db_of r)) = total_balance (wallets db) + 1)
  ∧ (¬ Commit ∈ trace_of r → wallets (db_of r) = wallets db).
Proof.
  intros Hok. cbn zeta.
  destruct (wallets_move_ok _ _ _ Hok (processTransfer_wallets env request db))
    as (Hok1 & Hbounds & Hsame).
  split; [done|]. split; [done|]. split; [done|]. split.
  - intros Hc Hhalf.
    destruct (committed_run env request db Hc)
      as (fw & tw & Hfw & Htw & Hpos & Hle & _ & ->).
    apply find_elem_of in Hfw as [Hfw _]. apply find_elem_of in Htw as [Htw _].
    cbn -[add_balance]. rewrite moved_total by done.
    destruct (debit_credit _ Hpos) as (_ & _ & _ & Hiff). apply Hiff in Hhalf. lia.
  - intros Hnc.
    destruct (decide (is_positive (req_amount request))) as [Hpos|Hle].
    2:{ by rewrite processTransfer_rejects_nonpositive. }
    destruct (transaction_logs db !! req_idempotencyKey request) as [l|] eqn:Hl.
    + destruct (log_status l) eqn:Hst.
      * by rewrite (processTransfer_pending_key _ _ _ l).
      * by rewrite (processTransfer_completed_key _ _ _ l).
      * by rewrite (processTransfer_failed_key _ _ _ l).
    + rewrite processTransfer_fresh_key in Hnc |- * by done.
      destruct (WalletService.processTransfer_unit env request _)
        as [[db2 t] [result|error]]; [|done].
      exfalso. apply Hnc. cbn. do 3 (apply elem_of_cons; right).
      apply elem_of_app. right. apply elem_of_cons. by left.
Qed.

(** X2: under any schedule of any number of concurrent calls, whatever the
    engine aborts, the table of wallets stays well formed (no balance is
    ever below zero); the sum of all balances never goes down, goes up by at
    most one hundredth a step, and is what it was at the start when no call
    asks for an amount that lies half a hundredth off. *)
Theorem run_keeps_wallets schedule cfg :
  wallets_ok (wallets (cfg_db cfg)) →
  wallets_ok (wallets (cfg_db (run schedule cfg)))
  ∧ total_balance (wallets (cfg_db cfg))
    ≤ total_balance (wallets (cfg_db (run schedule cfg)))
    ≤ total_balance (wallets (cfg_db cfg)) + Z.of_nat (length schedule)
  ∧ (Forall (λ c, ¬ half_hundredth (req_amount (call_request c))) (cfg_calls cfg) →
     total_balance (wallets (cfg_db (run schedule cfg)))
     = total_balance (wallets (cfg_db cfg))).
Proof.
  unfold run. revert cfg. induction schedule as [|i schedule IH]; intros cfg Hok.
  { cbn. split; [done|]. split; [lia|done]. }
  cbn [foldl length].
  destruct (sched_step_wallets cfg i) as [Hreq Hmove].
  assert (Hstep : wallets_ok (wallets (cfg_db (sched_step cfg i)))
                  ∧ total_balance (wallets (cfg_db cfg))
                    ≤ total_balance (wallets (cfg_db (sched_step cfg i)))
                    ≤ total_balance (wallets (cfg_db cfg)) + 1
                  ∧ (Forall (λ c, ¬ half_hundredth (req_amount (call_request c)))
                       (cfg_calls cfg) →
                     total_balance (wallets (cfg_db (sched_step cfg i)))
                     = total_balance (wallets (cfg_db cfg)))).
  { destruct Hmove as [->|(c & Hc & Hmove)]; [split; [done|]; split; [lia|done]|].
    destruct (wallets_move_ok _ _ _ Hok Hmove) as (Hok1 & Hbounds & Hsame).
    split; [done|]. split; [done|]. intros Hall. apply Hsame.
    rewrite Forall_forall in Hall. by apply Hall. }
  destruct Hstep as (Hok1 & Hbounds1 & Hsame1).
  destruct (IH _ Hok1) as (Hok2 & Hbounds2 & Hsame2).
  split; [done|]. split; [lia|]. intros Hall.
  rewrite Hsame2, Hsame1; [done|done|].
  apply (Forall_fmap call_request
           (λ r : TransferRequest, ¬ half_hundredth (req_amount r))).
  rewrite Hreq. by apply Forall_fmap.
Qed.

(** X3: [createWallet] keeps the table of wallets well formed, whether it
    adds the wallet or rejects. *)
Theorem createWallet_keeps_wallets_ok env userId initialBalance db :
  wallets_ok (wallets db) →
  wallets_ok (wallets (db_of (WalletService.createWallet env userId initialBalance db))).
Proof.
  intros (Hids & Husers & Hnn).
  unfold WalletService.createWallet, try_catch, Wallet_create.
  destruct (lt_hundredths initialBalance 0) eqn:Hneg; [done|].
  destruct (fits (rounded initialBalance)); [|done]. cbn.
  destruct (existsb _ (wallets db)) eqn:Hex; [done|]. cbn.
  assert (Hfree : ∀ w, w ∈ wallets db →
                       wallet_id w ≠ env_defaultId env ∧ wallet_userId w ≠ userId).
  { intros w Hw. apply not_true_iff_false in Hex.
    split; intros Heq; apply Hex, existsb_exists; exists w;
      (split; [by apply list_elem_of_In|]); unfold has_id, has_userId;
      rewrite (bool_decide_eq_true_2 _ Heq); [done|by apply orb_true_r]. }
  split; [|split]; rewrite ?fmap_app; cbn.
  - apply NoDup_app. split; [done|]. split; [|apply NoDup_singleton].
    intros id (w & -> & Hw)%list_elem_of_fmap ?%list_elem_of_singleton.
    by destruct (Hfree w Hw).
  - apply NoDup_app. split; [done|]. split; [|apply NoDup_singleton].
    intros u (w & -> & Hw)%list_elem_of_fmap ?%list_elem_of_singleton.
    by destruct (Hfree w Hw).
  - apply Forall_app. split; [done|]. apply Forall_singleton. cbn.
    unfold lt_hundredths in Hneg. apply Z.ltb_ge in Hneg.
    unfold rounded, add_rounded, round_half_away.
    pose proof (pow10_pos (num_scale initialBalance)) as Hd.
    rewrite (proj2 (Z.leb_le _ _)) by lia.
    apply Z.div_pos; lia.
Qed.

(** ** Rejections of [processTransfer] *)


Section missing_wallets.
Variable env : Env.
Variable request : TransferRequest.
Variable db : DB.

Let key := req_idempotencyKey request.

Hypothesis Hpos : is_positive (req_amount request).
Hypothesis Hfresh : transaction_logs db !! key = None.




End missing_wallets.

Lemma unit_sends_no_rollback env request db :
  ¬ Rollback ∈ trace_of (WalletService.processTransfer_unit env request db).
Proof.
  rewrite unit_run. destruct_unit; cbn; intros Hin; no_such_event Hin.
Qed.

(** X8: a key whose attempt was rolled back is spent: every later call with
    that key and a positive amount, whatever else it asks for, is rejected
    with 409 at the insert of the Pending record and changes nothing. *)
Theorem rolled_back_key_is_spent env request db env' request' :
  Rollback ∈ trace_of (WalletService.processTransfer env request db) →
  req_idempotencyKey request' = req_idempotencyKey request →
  is_positive (req_amount request') →
  let db1 := db_of (WalletService.processTransfer env request db) in
  WalletService.processTransfer env' request' db1
  = (db1, [SelectLog (req_idempotencyKey request);
           InsertLog (req_idempotencyKey request) false],
     Rejected conflict_insert).
Proof.
  intros Hrb Hkey Hpos'. cbn zeta.
  assert (Hreach : is_positive (req_amount request)
                   ∧ transaction_logs db !! req_idempotencyKey request = None).
  { apply (reaches_unit env request db Rollback); [|exact Hrb].
    apply elem_of_cons; right. apply elem_of_cons; right. apply elem_of_cons; by left. }
  destruct Hreach as [Hpos Hfresh].
  pose proof (processTransfer_fresh_key env request db Hpos Hfresh) as Hrun.
  pose proof (unit_sends_no_rollback env request (with_pending request db)) as Hunit.
  rewrite Hrun in Hrb |- *. clear Hrun.
  destruct (WalletService.processTransfer_unit env request (with_pending request db))
    as [[db2 t] [result|error]]; cbn in Hrb, Hunit |- *.
  - exfalso. do 3 (apply elem_of_cons in Hrb as [Hrb|Hrb]; [discriminate Hrb|]).
    apply elem_of_app in Hrb as [Hrb|Hrb]; [done|]. no_such_event Hrb.
  - rewrite <- Hkey.
    eapply processTransfer_failed_key; [done|cbn; by rewrite Hkey, lookup_insert_eq|done].
Qed.

(** ** What a call leaves in the ledger and in the table of transfers *)

Lemma processTransfer_ledger env request db :
  let logs1 := transaction_logs (db_of (WalletService.processTransfer env request db)) in
  logs1 = transaction_logs db
  ∨ (transaction_logs db !! req_idempotencyKey request = None
     ∧ ∃ l, logs1 = <[req_idempotencyKey request := l]> (transaction_logs db)
            ∧ log_status l ≠ TransactionLogStatus.PENDING
            ∧ log_requestPayload l = request).
Proof.
  cbn zeta. destruct (decide (is_positive (req_amount request))) as [Hpos|Hle].
  2:{ rewrite processTransfer_rejects_nonpositive by done. by left. }
  destruct (transaction_logs db !! req_idempotencyKey request) as [l|] eqn:Hl.
  - destruct (log_status l) eqn:Hst.
    + rewrite (processTransfer_pending_key _ _ _ l) by done. by left.
    + rewrite (processTransfer_completed_key _ _ _ l) by done. by left.
    + rewrite (processTransfer_failed_key _ _ _ l) by done. by left.
  - rewrite processTransfer_fresh_key by done. right. split; [done|].
    destruct (WalletService.processTransfer_unit env request _)
      as [[db2 t] [result|error]]; cbn; by eexists.
Qed.

(** X9: a call writes to the ledger under its own key only: the record of
    every other key is what it was. *)
Theorem processTransfer_ledger_frame env request db k :
  k ≠ req_idempotencyKey request →
  transaction_logs (db_of (WalletService.processTransfer env request db)) !! k
  = transaction_logs db !! k.
Proof.
  intros Hne. destruct (processTransfer_ledger env request db) as [->|(_ & l & -> & _)];
    [done|]. by rewrite lookup_insert_ne.
Qed.


Lemma uncommitted_transactions env request db :
  ¬ Commit ∈ trace_of (WalletService.processTransfer env request db) →
  transactions (db_of (WalletService.processTransfer env request db)) = transactions db.
Proof.
  intros Hnc.
  destruct (decide (is_positive (req_amount request))) as [Hpos|Hle].
  2:{ by rewrite processTransfer_rejects_nonpositive. }
  destruct (transaction_logs db !! req_idempotencyKey request) as [l|] eqn:Hl.
  - destruct (log_status l) eqn:Hst.
    + by rewrite (processTransfer_pending_key _ _ _ l).
    + by rewrite (processTransfer_completed_key _ _ _ l).
    + by rewrite (processTransfer_failed_key _ _ _ l).
  - rewrite processTransfer_fresh_key in Hnc |- * by done.
    destruct (WalletService.processTransfer_unit env request _)
      as [[db2 t] [result|error]]; [|done].
    exfalso. apply Hnc. cbn. do 3 (apply elem_of_cons; right).
    apply elem_of_app. right. apply elem_of_cons. by left.
Qed.

(** X11: the table of transfers only grows, by one row per committed call.
    A call that does not commit leaves the table as it was; a call that
    commits appends one row, already Completed, and what it returns, what
    it stores in the ledger and the row agree on the transfer's id, its
    reference and the two wallets.  The response and the ledger carry the
    amount as it was asked for; the row carries it rounded to the hundredth
    (half a hundredth going up), so the two amounts are the same when the
    amount has no third decimal. *)
Theorem processTransfer_transfer_rows env request db :
  let r := WalletService.processTransfer env request db in
  (¬ Commit ∈ trace_of r ∧ transactions (db_of r) = transactions db)
  ∨ (Commit ∈ trace_of r
     ∧ ∃ response row,
         outcome_of r = Resolved (Some response)
         ∧ transactions (db_of r) = transactions db ++ [row]
         ∧ transaction_logs (db_of r)
           = <[req_idempotencyKey request := completed_log request response]>
               (transaction_logs db)
         ∧ txn_status row = TransactionStatus.COMPLETED
         ∧ txn_id row = res_transactionId response
         ∧ txn_reference row = res_reference response
         ∧ txn_fromWalletId row = Some (res_fromWalletId response)
         ∧ txn_toWalletId row = Some (res_toWalletId response)
         ∧ res_amount response = req_amount request
         ∧ txn_amount row = credit (req_amount request)
         ∧ (∀ c, in_hundredths (req_amount request) c → txn_amount row = c)).
Proof.
  cbn zeta.
  destruct (decide (Commit ∈ trace_of (WalletService.processTransfer env request db)))
    as [Hc|Hnc]; [right|left; split; [done|by apply uncommitted_transactions]].
  split; [done|].
  destruct (committed_run env request db Hc)
    as (fw & tw & _ & _ & Hpos & _ & Hcol & ->).
  exists (transfer_response env request fw tw),
    (transfer_row env request fw tw TransactionStatus.COMPLETED).
  split; [done|]. split.
  { apply (transferred_transactions env request fw tw (with_pending request db) Hcol). }
  split; [done|]. cbn. rewrite rounded_credit by done.
  repeat split. intros c Hcents. by destruct (hundredths_debit_credit _ _ Hcents).
Qed.

(** ** Wallets: creation and look-up *)








(** X14: for a user with no wallet, [getWalletByUserId] rejects with
    "Wallet not found" (404), and [getTransactionHistory] rejects with that
    same error after the look-up of the wallet alone: the table of
    transfers is not queried.  Neither changes the database. *)
Theorem unknown_owner_is_not_found userId db :
  List.find (has_userId userId) (wallets db) = None →
  WalletService.getWalletByUserId userId db
  = (db, [SelectWallet userId], Rejected wallet_not_found)
  ∧ WalletService.getTransactionHistory userId db
    = (db, [SelectWallet userId], Rejected wallet_not_found).
Proof. intros Hnone. run_async. by rewrite Hnone. Qed.

(** ** The history after a transfer *)

Lemma history_run userId db w :
  List.find (has_userId userId) (wallets db) = Some w →
  WalletService.getTransactionHistory userId db
  = (db, [SelectWallet userId; SelectTransactions (wallet_id w)],
     Resolved (take 50 (merge_sort newer_or_same (matching (wallet_id w) (transactions db))))).
Proof. intros Hw. run_async. by rewrite Hw. Qed.

Lemma history_with_new_row (ts : list Transaction) (row : Transaction) (id : string) :
  touches id row = true →
  (length (matching id ts) < 50)%nat →
  let h := take 50 (merge_sort newer_or_same (matching id (ts ++ [row]))) in
  h ≡ₚ matching id ts ++ [row].
Proof.
  intros Hrow Hlen. cbn zeta. unfold matching in *. rewrite filter_app.
  rewrite (filter_cons_True (λ t, touches id t = true)) by done. rewrite filter_nil.
  rewrite take_ge; [apply merge_sort_Permutation|].
  rewrite merge_sort_Permutation, length_app. cbn. lia.
Qed.

(** X15: a committed transfer shows in the history of both owners.  After a
    call that commits, between the wallets [fw] of the source owner and [tw]
    of the destination owner, the history of either owner, when that wallet
    had fewer than 50 transfers before, is made of the transfers it had
    before and the new Completed row, and of nothing else. *)
Theorem history_shows_committed_transfer env request db fw tw :
  Commit ∈ trace_of (WalletService.processTransfer env request db) →
  List.find (has_userId (req_fromUserId request)) (wallets db) = Some fw →
  List.find (has_userId (req_toUserId request)) (wallets db) = Some tw →
  let db1 := db_of (WalletService.processTransfer env request db) in
  let row := transfer_row env request fw tw TransactionStatus.COMPLETED in
  ((length (matching (wallet_id fw) (transactions db)) < 50)%nat →
   ∃ h, outcome_of (WalletService.getTransactionHistory (req_fromUserId request) db1)
        = Resolved h
        ∧ h ≡ₚ matching (wallet_id fw) (transactions db) ++ [row])
  ∧ ((length (matching (wallet_id tw) (transactions db)) < 50)%nat →
     ∃ h, outcome_of (WalletService.getTransactionHistory (req_toUserId request) db1)
          = Resolved h
          ∧ h ≡ₚ matching (wallet_id tw) (transactions db) ++ [row]).
Proof.
  intros Hc Hfw Htw. cbn zeta.
  destruct (committed_run env request db Hc)
    as (fw' & tw' & Hfw' & Htw' & _ & _ & Hcol & ->).
  assert (fw' = fw) as -> by congruence. assert (tw' = tw) as -> by congruence.
  clear Hfw' Htw'. unfold db_of. cbn [fst].
  set (db1 := with_logs _ _).
  assert (Hts : transactions db1
                = transactions db
                    ++ [transfer_row env request fw tw TransactionStatus.COMPLETED]).
  { apply (transferred_transactions env request fw tw (with_pending request db) Hcol). }
  assert (Hfind : ∀ u w, List.find (has_userId u) (wallets db) = Some w →
            ∃ w1, List.find (has_userId u) (wallets db1) = Some w1
                  ∧ wallet_id w1 = wallet_id w).
  { intros u w Hu. subst db1. cbn -[add_balance].
    rewrite !find_userId_add_balance, Hu. cbn -[add_balance].
    eexists. split; [done|]. by rewrite !add_balance_id. }
  split; intros Hlen.
  - destruct (Hfind _ _ Hfw) as (w1 & Hw1 & Hid).
    rewrite (history_run _ _ _ Hw1), Hid, Hts. eexists. split; [done|].
    apply history_with_new_row; [|done].
    unfold touches. cbn. by rewrite bool_decide_eq_true_2.
  - destruct (Hfind _ _ Htw) as (w1 & Hw1 & Hid).
    rewrite (history_run _ _ _ Hw1), Hid, Hts. eexists. split; [done|].
    apply history_with_new_row; [|done].
    unfold touches. cbn.
    rewrite (bool_decide_eq_true_2 (Some (wallet_id tw) = Some (wallet_id tw))) by done.
    apply orb_true_r.
Qed.

(** ** The ledger: insert, look-up and marks *)



(** ** Concurrent calls on one key resolve alike *)

Lemma sched_step_calls cfg i j cj :
  cfg_calls (sched_step cfg i) !! j = Some cj →
  (j ≠ i ∧ cfg_calls cfg !! j = Some cj)
  ∨ (j = i ∧ ∃ c, cfg_calls cfg !! i = Some c
                  ∧ call_step c (cfg_db cfg) = (cfg_db (sched_step cfg i), cj)).
Proof.
  unfold sched_step. destruct (cfg_calls cfg !! i) as [c|] eqn:Hc.
  - destruct (call_step c (cfg_db cfg)) as [db1 c1] eqn:Hstep. cbn.
    pose proof (lookup_lt_Some _ _ _ Hc) as Hlt.
    destruct (decide (j = i)) as [->|Hne].
    + rewrite list_lookup_insert_eq by done. intros [= <-]. right. eauto.
    + rewrite list_lookup_insert_ne by done. by left.
  - intros Hj. left. split; [|done]. intros ->. congruence.
Qed.

Lemma sched_step_resolved cfg i :
  sys_inv cfg → resolved_inv cfg → resolved_inv (sched_step cfg i).
Proof.
  intros Hinv Hres j cj p Hj Hstage.
  assert (Hkeep : ∀ k l, transaction_logs (cfg_db cfg) !! k = Some l →
                         log_status l = TransactionLogStatus.COMPLETED →
                         transaction_logs (cfg_db (sched_step cfg i)) !! k = Some l).
  { intros k l Hl Hst. destruct (sched_step_moves cfg i k Hinv) as [->|Hmove]; [done|].
    unfold status_at in Hmove. rewrite Hl in Hmove. cbn in Hmove.
    rewrite Hst in Hmove. inversion Hmove. }
  destruct (sched_step_calls cfg i j cj Hj) as [[Hne Hold]|[-> (c & Hc & Hstep)]].
  { destruct (Hres j cj p Hold Hstage) as (l & Hl & Hst & Hp). eauto. }
  destruct Hinv as [Hcalls _]. pose proof (Hcalls i c Hc) as Hinvc.
  destruct (call_stage c) as [| | | |result|error|o] eqn:Hc_stage.
  - rewrite call_step_validating in Hstep by done.
    destruct (le_zero (req_amount (call_request c))); injection Hstep as _ <-; done.
  - rewrite call_step_checking in Hstep by done. injection Hstep as Hdb <-.
    rewrite <- Hdb. cbn in Hstage |- *. rewrite key_of_advance.
    destruct (transaction_logs (cfg_db cfg) !! key_of c) as [l|]; [|done].
    destruct (log_status l) eqn:Hst; [done| |done].
    injection Hstage as <-. eauto.
  - rewrite call_step_creating in Hstep by done.
    destruct (transaction_logs (cfg_db cfg) !! key_of c);
      injection Hstep as _ <-; done.
  - destruct (call_step_transacting c (cfg_db cfg) Hc_stage)
      as (db2 & t & stage & Heq & _ & [[result ->]|[e ->]]);
      rewrite Heq in Hstep; injection Hstep as _ <-; done.
  - rewrite (call_step_completing _ _ result) in Hstep by done.
    injection Hstep as Hdb <-. rewrite <- Hdb. cbn in Hstage |- *.
    rewrite key_of_advance. injection Hstage as <-.
    unfold call_inv in Hinvc. rewrite Hc_stage in Hinvc.
    destruct Hinvc as [_ Hpending]. unfold status_at in Hpending.
    rewrite lookup_alter_eq.
    destruct (transaction_logs (cfg_db cfg) !! key_of c) as [l|]; [|done].
    cbn. eauto.
  - rewrite (call_step_failing _ _ error) in Hstep by done.
    injection Hstep as _ <-. done.
  - rewrite (call_step_settled _ _ o) in Hstep by done.
    injection Hstep as _ <-.
    destruct (Hres i c p Hc Hstage) as (l & Hl & Hst & Hp). eauto.
Qed.

Lemma run_resolved schedule cfg :
  sys_inv cfg → resolved_inv cfg → resolved_inv (run schedule cfg).
Proof.
  unfold run. revert cfg.
  induction schedule as [|i schedule IH]; intros cfg Hinv Hres; [done|].
  cbn. apply IH; [by apply sched_step_inv|by apply sched_step_resolved].
Qed.

(** X18: under any schedule, the calls that share a key and resolve all
    resolve with the same response, and that response is the one the ledger
    holds, Completed, for the key: a key never yields two transfers'
    results. *)
Theorem same_key_same_response cfg0 schedule :
  Forall started (cfg_calls cfg0) →
  let cfg := run schedule cfg0 in
  ∀ i j ci cj p q,
    cfg_calls cfg !! i = Some ci → cfg_calls cfg !! j = Some cj →
    key_of ci = key_of cj →
    call_stage ci = Settled (Resolved p) →
    call_stage cj = Settled (Resolved q) →
    p = q
    ∧ ∃ l, transaction_logs (cfg_db cfg) !! key_of ci = Some l
           ∧ log_status l = TransactionLogStatus.COMPLETED
           ∧ log_responsePayload l = p.
Proof.
  intros Hstarted. cbn zeta.
  assert (Hres : resolved_inv (run schedule cfg0)).
  { apply run_resolved; [by apply started_inv|].
    intros i c p Hc Hstage. eapply Forall_lookup_1 in Hstarted as [Hs _]; [|done].
    congruence. }
  intros i j ci cj p q Hi Hj Hkey Hp Hq.
  destruct (Hres i ci p Hi Hp) as (l & Hl & Hst & <-).
  destruct (Hres j cj q Hj Hq) as (l' & Hl' & _ & <-).
  rewrite Hkey in Hl. split; [congruence|]. rewrite Hkey. eauto.
Qed.

(** ** The retention job *)

Lemma cleanupOldLogs_destroys now hoursOld (logs : gmap string DatedLog) key row :
  logs !! key = Some row →
  log_status (dated_log row) ≠ TransactionLogStatus.PENDING →
  dated_createdAt row < cutoff now hoursOld →
  (cleanupOldLogs now hoursOld logs).1 !! key = None.
Proof.
  intros Hrow Hst Hlt. apply map_lookup_filter_None. right.
  intros row' Hrow' Hnot. apply Hnot. simplify_eq. unfold destroyed. cbn.
  split; [|done]. by destruct (log_status (dated_log row)); [|left|right].
Qed.

(** X19: [cleanupOldLogs] never destroys a Pending record, however old, and
    never a record created at or after the cut-off (24 hours before now when
    no age is given); it destroys every Completed or Failed record created
    before the cut-off, changes no record it keeps, returns the number of
    records it destroyed, and run again at the same instant destroys
    nothing. *)
Theorem cleanupOldLogs_effect now hoursOld (logs : gmap string DatedLog) :
  let kept := (cleanupOldLogs now hoursOld logs).1 in
  let deleted := (cleanupOldLogs now hoursOld logs).2 in
  (∀ key row, logs !! key = Some row →
     log_status (dated_log row) = TransactionLogStatus.PENDING
     ∨ cutoff now hoursOld ≤ dated_createdAt row →
     kept !! key = Some row)
  ∧ (∀ key row, logs !! key = Some row →
       log_status (dated_log row) ≠ TransactionLogStatus.PENDING →
       dated_createdAt row < cutoff now hoursOld →
       kept !! key = None)
  ∧ (∀ key row, kept !! key = Some row → logs !! key = Some row)
  ∧ size logs = (deleted + size kept)%nat
  ∧ cleanupOldLogs now hoursOld kept = (kept, 0%nat).
Proof.
  cbn zeta. unfold cleanupOldLogs. cbn [fst snd].
  split; [|split; [|split; [|split]]].
  - intros key row Hrow Hkeep. apply map_lookup_filter_Some. split; [done|].
    unfold destroyed. cbn. intros [[Hst|Hst] Hlt]; destruct Hkeep as [Hp|Hge];
      (congruence || lia).
  - intros key row. apply cleanupOldLogs_destroys.
  - by intros key row [? _]%map_lookup_filter_Some.
  - rewrite <- map_size_disj_union by apply map_disjoint_filter_complement.
    by rewrite (map_filter_union_complement
                  (λ kv : string * DatedLog, destroyed (cutoff now hoursOld) kv.2)).
  - f_equal.
    + apply map_filter_id. by intros key row [_ ?]%map_lookup_filter_Some.
    + apply map_size_empty_iff, map_eq. intros key. rewrite lookup_empty.
      apply map_lookup_filter_None. right. intros row [_ Hnot]%map_lookup_filter_Some.
      done.
Qed.

(** X20: the idempotency of a key lasts as long as its record.  A call on a
    key whose record is Completed or Failed never enters the atomic unit;
    once [cleanupOldLogs] has destroyed that record, the same call does: it
    is admitted as a fresh attempt. *)
Theorem cleaned_key_runs_again env request db now hoursOld
    (logs : gmap string DatedLog) (row : DatedLog) :
  transaction_logs db = ledger_of logs →
  logs !! req_idempotencyKey request = Some row →
  log_status (dated_log row) ≠ TransactionLogStatus.PENDING →
  dated_createdAt row < cutoff now hoursOld →
  is_positive (req_amount request) →
  let db1 := with_logs (ledger_of (cleanupOldLogs now hoursOld logs).1) db in
  ¬ Begin ∈ trace_of (WalletService.processTransfer env request db)
  ∧ Begin ∈ trace_of (WalletService.processTransfer env request db1).
Proof.
  intros Hlogs Hrow Hst Hlt Hpos. cbn zeta. split.
  - intros Hin.
    destruct (processTransfer_stopped_early env request db Begin) as [?|?];
      [|done|done|done].
    right. rewrite Hlogs. unfold ledger_of. rewrite lookup_fmap, Hrow. by eexists.
  - rewrite processTransfer_fresh_key; [|done|].
    + destruct (WalletService.processTransfer_unit env request _)
        as [[db2 t] [result|error]]; cbn;
        (apply elem_of_cons; right; apply elem_of_cons; right;
         apply elem_of_cons; by left).
    + unfold with_logs, ledger_of. cbn [transaction_logs]. rewrite lookup_fmap.
      by rewrite (cleanupOldLogs_destroys now hoursOld logs _ row Hrow Hst Hlt).
Qed.

(** ** The endpoint in front of [processTransfer] *)

Lemma transfer_run env body db :
  TransferController.transfer env body db
  = match truthy_string (body_fromUserId body), truthy_string (body_toUserId body),
          truthy_number (body_amount body),
          truthy_string (body_idempotencyKey body) with
    | Some f, Some t, Some a, Some k =>
        if bool_decide (f = t) then (db, [], Rejected same_wallet)
        else WalletService.processTransfer env
               (mkTransferRequest f t a (body_description body) k) db
    | _, _, _, _ => (db, [], Rejected missing_fields)
    end.
Proof.
  unfold TransferController.transfer, throw.
  repeat case_match; done.
Qed.

Lemma truthy_number_some x a : truthy_number x = Some a → x = Some a.
Proof.
  unfold truthy_number. destruct x as [n|]; [|done]. by destruct (is_zero n).
Qed.

Lemma transferred_balances env request db fw tw :
  wallets_ok (wallets db) → fw ∈ wallets db → tw ∈ wallets db →
  wallet_id fw ≠ wallet_id tw →
  is_positive (req_amount request) →
  covers (wallet_balance fw) (req_amount request) →
  balance_by_id (wallet_id fw) (transferred env request fw tw db)
  = Some (wallet_balance fw - debit (req_amount request))
  ∧ balance_by_id (wallet_id tw) (transferred env request fw tw db)
    = Some (wallet_balance tw + credit (req_amount request)).
Proof.
  intros (Hnd & _ & Hnn) Hfw Htw Hne Hpos Hle.
  rewrite Forall_forall in Hnn.
  unfold balance_by_id, wallet_by_id. cbn -[add_balance].
  rewrite !find_id_add_balance, !find_by_own_id by done. cbn -[add_balance].
  rewrite (add_balance_other (wallet_id tw) _ (add_balance _ _ fw))
    by by rewrite add_balance_id.
  rewrite (add_balance_other (wallet_id fw) _ tw) by done.
  rewrite !add_balance_same by done.
  by rewrite add_rounded_debit, add_rounded_credit by (done || by apply Hnn).
Qed.

(** X21: through the endpoint, money only ever moves between two different
    wallets.  For a request body whose fields are strings and whose amount
    is a number, when the call commits (on a well-formed table of wallets)
    the response names two different wallets and carries the body's amount,
    which is positive; the source wallet's balance has gone down and the
    destination wallet's balance has gone up by that amount rounded to the
    hundredth, half a hundredth going down for the source and up for the
    destination; both move by exactly the amount when it has no third
    decimal. *)
Theorem transfer_moves_between_two_wallets env body db :
  wallets_ok (wallets db) →
  Commit ∈ trace_of (TransferController.transfer env body db) →
  let r := TransferController.transfer env body db in
  ∃ result b_from b_to,
    outcome_of r = Resolved (Some result)
    ∧ res_fromWalletId result ≠ res_toWalletId result
    ∧ is_positive (res_amount result)
    ∧ body_amount body = Some (res_amount result)
    ∧ balance_by_id (res_fromWalletId result) db = Some b_from
    ∧ balance_by_id (res_toWalletId result) db = Some b_to
    ∧ balance_by_id (res_fromWalletId result) (db_of r)
      = Some (b_from - debit (res_amount result))
    ∧ balance_by_id (res_toWalletId result) (db_of r)
      = Some (b_to + credit (res_amount result))
    ∧ (∀ c, in_hundredths (res_amount result) c →
         debit (res_amount result) = c ∧ credit (res_amount result) = c).
Proof.
  intros Hok. cbn zeta. rewrite transfer_run.
  destruct (truthy_string (body_fromUserId body)) as [f|];
    [|intros Hc; no_such_event Hc].
  destruct (truthy_string (body_toUserId body)) as [t|];
    [|intros Hc; no_such_event Hc].
  destruct (truthy_number (body_amount body)) as [a|] eqn:Ha;
    [|intros Hc; no_such_event Hc].
  destruct (truthy_string (body_idempotencyKey body)) as [k|];
    [|intros Hc; no_such_event Hc].
  destruct (bool_decide (f = t)) eqn:Hft; [intros Hc; no_such_event Hc|].
  apply bool_decide_eq_false in Hft. intros Hc.
  set (request := mkTransferRequest f t a (body_description body) k) in *.
  destruct (committed_run env request db Hc)
    as (fw & tw & Hfw & Htw & Hpos & Hle & _ & ->).
  apply find_elem_of in Hfw as [Hfw Hfu]. apply find_elem_of in Htw as [Htw Htu].
  apply bool_decide_eq_true in Hfu, Htu. cbn in Hfu, Htu.
  pose proof Hok as (Hnd & _ & _).
  assert (Hne : wallet_id fw ≠ wallet_id tw).
  { intros Heq. apply Hft.
    rewrite <- Hfu, <- Htu. by rewrite (same_id_same_row _ fw tw Hnd Hfw Htw Heq). }
  exists (transfer_response env request fw tw), (wallet_balance fw), (wallet_balance tw).
  split; [done|]. split; [done|]. split; [done|].
  split; [by apply truthy_number_some|].
  cbn [transfer_response res_fromWalletId res_toWalletId res_amount].
  split; [by unfold balance_by_id, wallet_by_id; rewrite find_by_own_id|].
  split; [by unfold balance_by_id, wallet_by_id; rewrite find_by_own_id|].
  destruct (transferred_balances env request (with_pending request db) fw tw
              Hok Hfw Htw Hne Hpos Hle) as [Hfrom Hto].
  split; [exact Hfrom|]. split; [exact Hto|].
  intros c Hcents. by apply hundredths_debit_credit.
Qed.

(** X22: the endpoint answers a request whose amount is absent, zero or
    negative with status 400 before any statement is sent to the database,
    whatever its other fields are; nothing is stored, not even a record
    under the request's idempotency key. *)
Theorem transfer_without_positive_amount env body db :
  (∀ a, body_amount body = Some a → ¬ is_positive a) →
  let r := TransferController.transfer env body db in
  trace_of r = [] ∧ db_of r = db
  ∧ ∃ message, outcome_of r = Rejected (AppError message 400).
Proof.
  intros Ha. cbn zeta. rewrite transfer_run.
  destruct (truthy_string (body_fromUserId body)) as [f|];
    [|by repeat split; eexists].
  destruct (truthy_string (body_toUserId body)) as [t|];
    [|by repeat split; eexists].
  destruct (truthy_number (body_amount body)) as [a|] eqn:Hn;
    [|by repeat split; eexists].
  destruct (truthy_string (body_idempotencyKey body)) as [k|];
    [|by repeat split; eexists].
  destruct (bool_decide (f = t)); [by repeat split; eexists|].
  assert (Hle : ¬ is_positive a) by by apply Ha, truthy_number_some.
  rewrite (processTransfer_rejects_nonpositive env _ db) by done.
  by repeat split; eexists.
Qed.

(** ** A transaction the engine aborts *)

(** X23: when the engine aborts the transaction of a call (a deadlock, a
    serialization failure), the call rejects with the engine's error as it
    is; no wallet and no transfer row has changed, and the key's record is
    left Failed with the engine's message.  The call is one with a positive amount and
    a fresh key, whose transfer would have committed had the engine let
    it. *)
Theorem aborted_call_fails_its_key env request db statement message :
  is_positive (req_amount request) →
  transaction_logs db !! req_idempotencyKey request = None →
  Commit ∈ trace_of (WalletService.processTransfer env request db) →
  let key := req_idempotencyKey request in
  let error := SequelizeDatabaseError message in
  ∃ t,
    call_steps 5 (start_under (Aborts statement message) env request) db
    = (with_logs (<[key := failed_log request error]> (transaction_logs db)) db,
       mkCall env request (Aborts statement message) (Settled (Rejected error))
         ([SelectLog key; InsertLog key true; Begin] ++ t
            ++ [Rollback; UpdateLog key TransactionLogStatus.FAILED]))
    ∧ ¬ Commit ∈ t
    ∧ log_errorMessage (failed_log request error) = Some message.
Proof.
  intros Hpos Hfresh Hc. cbn zeta.
  rewrite processTransfer_fresh_key in Hc by done.
  pose proof (unit_run env request (with_pending request db)) as Hunit.
  unfold call_steps. rewrite call_step_validating by done.
  cbn [start_under call_request]. rewrite (proj2 (le_zero_false _) Hpos).
  rewrite call_step_checking by done. unfold key_of.
  cbn [advance call_request call_stage call_env call_engine call_trace start_under].
  rewrite Hfresh.
  rewrite call_step_creating by done. unfold key_of.
  cbn [advance call_request call_stage call_env call_engine call_trace start_under].
  rewrite Hfresh.
  unfold call_step at 1.
  cbn [advance call_request call_stage call_env call_engine call_trace start_under
       transaction_under].
  unfold aborted.
  destruct (WalletService.processTransfer_unit env request (with_pending request db))
    as [[db2 t] [result|e]] eqn:Hrun.
  2:{ exfalso. cbn in Hc. do 3 (apply elem_of_cons in Hc as [Hc|Hc]; [discriminate Hc|]).
      apply elem_of_app in Hc as [Hc|Hc]; [|no_such_event Hc].
      revert Hc. clear -Hunit. revert Hunit.
      destruct_unit; intros Heq Hc; simplify_eq; no_such_event Hc. }
  rewrite (call_step_failing _ _ (SequelizeDatabaseError message)) by done.
  exists (take statement t). split; [|split; [|done]].
  - unfold advance, key_of; cbn. rewrite alter_insert_eq. cbn.
    by rewrite <- app_assoc.
  - intros Hin%subseteq_take. revert Hin. clear -Hunit. revert Hunit.
    destruct_unit; intros Heq Hin; simplify_eq; no_such_event Hin.
Qed.

(** ** The further properties on the scenarios *)

(** The transfer of 100.005 adds one hundredth to the sum of the balances. *)
Lemma processTransfer_keeps_wallets_witness :
  wallets_ok (wallets db_two)
  ∧ Commit ∈ trace_of (WalletService.processTransfer env1 req_half_cent db_two)
  ∧ half_hundredth (req_amount req_half_cent)
  ∧ wallets_ok (wallets (db_of (WalletService.processTransfer env1 req_half_cent db_two)))
  ∧ total_balance (wallets (db_of (WalletService.processTransfer env1 req_half_cent
                                     db_two)))
    = total_balance (wallets db_two) + 1.
Proof.
  assert (H1 : wallets_ok (wallets db_two))
    by (unfold wallets_ok; split; [|split]; by_computation).
  assert (H2 : Commit ∈ trace_of (WalletService.processTransfer env1 req_half_cent
                                    db_two)) by by_computation.
  assert (H3 : half_hundredth (req_amount req_half_cent))
    by (exists 10000; vm_compute; reflexivity).
  split; [exact H1|]. split; [exact H2|]. split; [exact H3|].
  destruct (processTransfer_keeps_wallets env1 req_half_cent db_two H1)
    as (Hok & _ & _ & Hgain & _).
  split; [exact Hok|exact (Hgain H2 H3)].
Defined.

Lemma run_keeps_wallets_witness :
  wallets_ok (wallets (cfg_db cfg_two_spenders))
  ∧ wallets_ok (wallets (cfg_db (run side_by_side cfg_two_spenders)))
  ∧ total_balance (wallets (cfg_db cfg_two_spenders))
    ≤ total_balance (wallets (cfg_db (run side_by_side cfg_two_spenders)))
    ≤ total_balance (wallets (cfg_db cfg_two_spenders)) + Z.of_nat (length side_by_side)
  ∧ (Forall (λ c, ¬ half_hundredth (req_amount (call_request c)))
       (cfg_calls cfg_two_spenders) →
     total_balance (wallets (cfg_db (run side_by_side cfg_two_spenders)))
     = total_balance (wallets (cfg_db cfg_two_spenders))).
Proof.
  assert (H1 : wallets_ok (wallets (cfg_db cfg_two_spenders)))
    by (unfold wallets_ok; split; [|split]; by_computation).
  split; [exact H1|].
  exact (run_keeps_wallets side_by_side cfg_two_spenders H1).
Defined.

Lemma createWallet_keeps_wallets_ok_witness :
  wallets_ok (wallets db_two)
  ∧ wallets_ok (wallets (db_of (WalletService.createWallet env1 "third"
                                  (mkNumber 25005 3) db_two))).
Proof.
  assert (H1 : wallets_ok (wallets db_two))
    by (unfold wallets_ok; split; [|split]; by_computation).
  split; [exact H1|].
  exact (createWallet_keeps_wallets_ok env1 "third" (mkNumber 25005 3) db_two H1).
Defined.





Lemma rolled_back_key_is_spent_witness :
  Rollback ∈ trace_of (WalletService.processTransfer env1 req_too_much db_two)
  ∧ is_positive (req_amount req_retry)
  ∧ WalletService.processTransfer env2 req_retry db_failed
    = (db_failed, [SelectLog "K2"; InsertLog "K2" false], Rejected conflict_insert).
Proof.
  assert (H1 : Rollback ∈ trace_of (WalletService.processTransfer env1 req_too_much
                                      db_two)) by by_computation.
  assert (H2 : req_idempotencyKey req_retry = req_idempotencyKey req_too_much)
    by reflexivity.
  assert (H3 : is_positive (req_amount req_retry)) by (vm_compute; reflexivity).
  split; [exact H1|]. split; [exact H3|].
  exact (rolled_back_key_is_spent env1 req_too_much db_two env2 req_retry H1 H2 H3).
Defined.

Lemma processTransfer_ledger_frame_witness :
  "K1" ≠ req_idempotencyKey req_too_much
  ∧ transaction_logs
      (db_of (WalletService.processTransfer env2 req_too_much db_done)) !! "K1"
    = transaction_logs db_done !! "K1".
Proof.
  assert (H1 : "K1" ≠ req_idempotencyKey req_too_much) by (vm_compute; discriminate).
  split; [exact H1|].
  exact (processTransfer_ledger_frame env2 req_too_much db_done "K1" H1).
Defined.



Lemma unknown_owner_is_not_found_witness :
  List.find (has_userId "nobody") (wallets db_done) = None
  ∧ WalletService.getWalletByUserId "nobody" db_done
    = (db_done, [SelectWallet "nobody"], Rejected wallet_not_found)
  ∧ WalletService.getTransactionHistory "nobody" db_done
    = (db_done, [SelectWallet "nobody"], Rejected wallet_not_found).
Proof.
  assert (H1 : List.find (has_userId "nobody") (wallets db_done) = None)
    by (vm_compute; reflexivity).
  split; [exact H1|].
  exact (unknown_owner_is_not_found "nobody" db_done H1).
Defined.

Lemma history_shows_committed_transfer_witness :
  Commit ∈ trace_of (WalletService.processTransfer env1 req1 db_two)
  ∧ List.find (has_userId "sender") (wallets db_two) = Some sender
  ∧ List.find (has_userId "receiver") (wallets db_two) = Some receiver
  ∧ let row := transfer_row env1 req1 sender receiver TransactionStatus.COMPLETED in
    ((length (matching "w-1" (transactions db_two)) < 50)%nat →
     ∃ h, outcome_of (WalletService.getTransactionHistory "sender" db_done) = Resolved h
          ∧ h ≡ₚ matching "w-1" (transactions db_two) ++ [row])
    ∧ ((length (matching "w-2" (transactions db_two)) < 50)%nat →
       ∃ h, outcome_of (WalletService.getTransactionHistory "receiver" db_done)
            = Resolved h
            ∧ h ≡ₚ matching "w-2" (transactions db_two) ++ [row]).
Proof.
  assert (H1 : Commit ∈ trace_of (WalletService.processTransfer env1 req1 db_two))
    by by_computation.
  assert (H2 : List.find (has_userId (req_fromUserId req1)) (wallets db_two)
               = Some sender) by (vm_compute; reflexivity).
  assert (H3 : List.find (has_userId (req_toUserId req1)) (wallets db_two)
               = Some receiver) by (vm_compute; reflexivity).
  split; [exact H1|]. split; [exact H2|]. split; [exact H3|].
  exact (history_shows_committed_transfer env1 req1 db_two sender receiver H1 H2 H3).
Defined.



Lemma same_key_same_response_witness :
  Forall started (cfg_calls cfg_double_tap)
  ∧ let cfg := run late_lookup cfg_double_tap in
    ∀ i j ci cj p q,
      cfg_calls cfg !! i = Some ci → cfg_calls cfg !! j = Some cj →
      key_of ci = key_of cj →
      call_stage ci = Settled (Resolved p) →
      call_stage cj = Settled (Resolved q) →
      p = q
      ∧ ∃ l, transaction_logs (cfg_db cfg) !! key_of ci = Some l
             ∧ log_status l = TransactionLogStatus.COMPLETED
             ∧ log_responsePayload l = p.
Proof.
  assert (H1 : Forall started (cfg_calls cfg_double_tap)) by (repeat constructor).
  split; [exact H1|].
  exact (same_key_same_response cfg_double_tap late_lookup H1).
Defined.

Lemma cleaned_key_runs_again_witness :
  transaction_logs db_done = ledger_of dated_done
  ∧ dated_done !! "K1" = Some (mkDatedLog 0 (completed_log req1 response1))
  ∧ 0 < cutoff two_days_later None
  ∧ is_positive (req_amount req_other_amount)
  ∧ ¬ Begin ∈ trace_of (WalletService.processTransfer env2 req_other_amount db_done)
  ∧ Begin ∈ trace_of
              (WalletService.processTransfer env2 req_other_amount
                 (with_logs (ledger_of (cleanupOldLogs two_days_later None dated_done).1)
                    db_done)).
Proof.
  assert (H1 : transaction_logs db_done = ledger_of dated_done)
    by (vm_compute; reflexivity).
  assert (H2 : dated_done !! req_idempotencyKey req_other_amount
               = Some (mkDatedLog 0 (completed_log req1 response1)))
    by (vm_compute; reflexivity).
  assert (H3 : log_status (dated_log (mkDatedLog 0 (completed_log req1 response1)))
               ≠ TransactionLogStatus.PENDING) by (vm_compute; discriminate).
  assert (H4 : dated_createdAt (mkDatedLog 0 (completed_log req1 response1))
               < cutoff two_days_later None) by (vm_compute; reflexivity).
  assert (H5 : is_positive (req_amount req_other_amount)) by (vm_compute; reflexivity).
  split; [exact H1|]. split; [exact H2|]. split; [exact H4|]. split; [exact H5|].
  exact (cleaned_key_runs_again env2 req_other_amount db_done two_days_later None
           dated_done (mkDatedLog 0 (completed_log req1 response1)) H1 H2 H3 H4 H5).
Defined.

(** Through the endpoint, 100.005: the source goes down by 100.00 and the
    destination up by 100.01. *)
Lemma transfer_moves_between_two_wallets_witness :
  wallets_ok (wallets db_two)
  ∧ Commit ∈ trace_of (TransferController.transfer env1 body_half_cent db_two)
  ∧ debit (mkNumber 100005 3) = 10000
  ∧ credit (mkNumber 100005 3) = 10001
  ∧ ∃ result b_from b_to,
      outcome_of (TransferController.transfer env1 body_half_cent db_two)
      = Resolved (Some result)
      ∧ res_fromWalletId result ≠ res_toWalletId result
      ∧ is_positive (res_amount result)
      ∧ body_amount body_half_cent = Some (res_amount result)
      ∧ balance_by_id (res_fromWalletId result) db_two = Some b_from
      ∧ balance_by_id (res_toWalletId result) db_two = Some b_to
      ∧ balance_by_id (res_fromWalletId result)
          (db_of (TransferController.transfer env1 body_half_cent db_two))
        = Some (b_from - debit (res_amount result))
      ∧ balance_by_id (res_toWalletId result)
          (db_of (TransferController.transfer env1 body_half_cent db_two))
        = Some (b_to + credit (res_amount result))
      ∧ (∀ c, in_hundredths (res_amount result) c →
           debit (res_amount result) = c ∧ credit (res_amount result) = c).
Proof.
  assert (H1 : wallets_ok (wallets db_two))
    by (unfold wallets_ok; split; [|split]; by_computation).
  assert (H2 : Commit ∈ trace_of (TransferController.transfer env1 body_half_cent
                                    db_two)) by by_computation.
  split; [exact H1|]. split; [exact H2|].
  split; [vm_compute; reflexivity|]. split; [vm_compute; reflexivity|].
  exact (transfer_moves_between_two_wallets env1 body_half_cent db_two H1 H2).
Defined.

Lemma transfer_without_positive_amount_witness :
  (∀ a, body_amount body_zero = Some a → ¬ is_positive a)
  ∧ trace_of (TransferController.transfer env1 body_zero db_two) = []
  ∧ db_of (TransferController.transfer env1 body_zero db_two) = db_two
  ∧ ∃ message,
      outcome_of (TransferController.transfer env1 body_zero db_two)
      = Rejected (AppError message 400).
Proof.
  assert (H1 : ∀ a, body_amount body_zero = Some a → ¬ is_positive a).
  { intros a Ha. vm_compute in Ha. injection Ha as <-. vm_compute. discriminate. }
  split; [exact H1|].
  exact (transfer_without_positive_amount env1 body_zero db_two H1).
Defined.

Lemma aborted_call_fails_its_key_witness :
  is_positive (req_amount req_600_b)
  ∧ transaction_logs db_two !! "K4" = None
  ∧ Commit ∈ trace_of (WalletService.processTransfer env2 req_600_b db_two)
  ∧ ∃ t,
      call_steps 5 (start_under (Aborts 1 serialization_failure) env2 req_600_b) db_two
      = (with_logs (<["K4" := failed_log req_600_b
                                (SequelizeDatabaseError serialization_failure)]>
                      (transaction_logs db_two)) db_two,
         mkCall env2 req_600_b (Aborts 1 serialization_failure)
           (Settled (Rejected (SequelizeDatabaseError serialization_failure)))
           ([SelectLog "K4"; InsertLog "K4" true; Begin] ++ t
              ++ [Rollback; UpdateLog "K4" TransactionLogStatus.FAILED]))
      ∧ ¬ Commit ∈ t
      ∧ log_errorMessage (failed_log req_600_b
                            (SequelizeDatabaseError serialization_failure))
        = Some serialization_failure.
Proof.
  assert (H1 : is_positive (req_amount req_600_b)) by (vm_compute; reflexivity).
  assert (H2 : transaction_logs db_two !! req_idempotencyKey req_600_b = None)
    by (vm_compute; reflexivity).
  assert (H3 : Commit ∈ trace_of (WalletService.processTransfer env2 req_600_b db_two))
    by by_computation.
  split; [exact H1|]. split; [exact H2|]. split; [exact H3|].
  exact (aborted_call_fails_its_key env2 req_600_b db_two 1 serialization_failure
           H1 H2 H3).
Defined.
